(** * Mutual-information image registration (mutualinformation.py)

    A shallow embedding of the registration pipeline of
    [src/mutualinformation.py]: channel extraction, cropping, the overlap
    window, the binned histogram (marginal PMF), the additive joint PMF,
    the mutual-information score and the 41-shift scan.

    Modelling conventions.
    - A Python exception is a value of [exn]; a function that can raise
      returns [result A].  Reading and writing image files is outside
      the model, except for the exception [save] raises on an array
      without pixels.
    - A 2-D numpy array is an [ndarray]: its column count and its rows.
    - float64 arithmetic is idealised as exact arithmetic: rationals [Q]
      up to the logarithm and reals [R] after it, extended with the three
      non-finite values and numpy's rules for them (a numpy scalar
      division by zero yields inf or nan and only warns).  Rounding is
      not modelled.
    - The float64 counters of the raw histogram hold exact integers and
      are kept in [Z]. *)

From Stdlib Require Import ZArith QArith Reals Lia Lqa.
From stdpp Require Import base list strings.

(** * The program *)

(** ** Exceptions and the error monad *)

Inductive exn := IndexError | ValueError | OverflowError.

Inductive result (A : Type) :=
  | Ok (a : A)
  | Raise (e : exn).
Arguments Ok {A} a.
Arguments Raise {A} e.

#[global] Instance result_ret : MRet result := @Ok.
#[global] Instance result_bind : MBind result := λ A B f m,
  match m with
  | Ok a => f a
  | Raise e => Raise e
  end.

(** [for x in l: s = body x s], stopping at the first exception. *)
Fixpoint for_each {A St : Type} (l : list A) (body : A → St → result St) (s : St)
  : result St :=
  match l with
  | [] => Ok s
  | x :: l' => s' ← body x s; for_each l' body s'
  end.

(** Python's [range(n)] and [range(start, stop, step)]. *)
Definition range (n : Z) : list Z := Z.of_nat <$> seq 0 (Z.to_nat n).

Definition range3 (start stop step : Z) : result (list Z) :=
  if decide (step = 0)%Z then Raise ValueError
  else
    let n := if decide (0 < step)%Z
             then ((stop - start + step - 1) `div` step)%Z
             else ((start - stop - step - 1) `div` (- step))%Z in
    Ok ((λ k : nat, (start + step * Z.of_nat k)%Z) <$> seq 0 (Z.to_nat n)).

(** Indexing a sequence of length [n] with a Python integer: negative
    indices count from the end, anything outside [-n, n) raises. *)
Definition index (n : nat) (k : Z) : result nat :=
  if decide (0 ≤ k < Z.of_nat n)%Z then Ok (Z.to_nat k)
  else if decide (- Z.of_nat n ≤ k < 0)%Z then Ok (Z.to_nat (k + Z.of_nat n))
  else Raise IndexError.

Definition getitem {A} (l : list A) (k : Z) : result A :=
  i ← index (length l) k;
  match l !! i with
  | Some x => Ok x
  | None => Raise IndexError
  end.

Definition setitem {A} (l : list A) (k : Z) (x : A) : result (list A) :=
  i ← index (length l) k; Ok (<[i := x]> l).

(** A numpy array indexed with an arbitrary Python integer, as in
    [hist_vals[pix]]: an integer in [[2^63, 2^64)] does not fit the signed
    index and raises OverflowError; any other one follows the rule above.
    The other indices of the program are loop counters and column
    offsets, which are taken within the index range. *)
Definition np_getitem {A} (a : list A) (k : Z) : result A :=
  if decide (2 ^ 63 ≤ k < 2 ^ 64)%Z then Raise OverflowError else getitem a k.

Definition np_setitem {A} (a : list A) (k : Z) (x : A) : result (list A) :=
  if decide (2 ^ 63 ≤ k < 2 ^ 64)%Z then Raise OverflowError else setitem a k x.

(** ** Arrays *)

Record ndarray (A : Type) := NdArray { ncols : nat; rows : list (list A) }.
Arguments NdArray {A} ncols rows.
Arguments ncols {A} _.
Arguments rows {A} _.

Definition nrows {A} (a : ndarray A) : nat := length (rows a).
Definition np_shape {A} (a : ndarray A) : Z * Z :=
  (Z.of_nat (nrows a), Z.of_nat (ncols a)).
Definition np_copy {A} (a : ndarray A) : ndarray A := a.

(** [a[i][j] = v]: [a[i]] is a view of row [i], so the store updates [a]. *)
Definition setcell {A} (a : ndarray A) (i j : Z) (v : A) : result (ndarray A) :=
  r ← getitem (rows a) i;
  r' ← setitem r j v;
  rs ← setitem (rows a) i r';
  Ok (NdArray (ncols a) rs).

(** ** overlap *)

(** Lines 61-77.  [temp[i][xmin]] follows Python's indexing: the code has
    no bounds check of its own. *)
Definition overlap {A} (ref temp : ndarray A) (shift : Z) : result (ndarray A) :=
  let result := np_copy ref in
  let dim := np_shape result in
  for_each (range dim.1) (λ i result,
    for_each (range dim.2) (λ j result,
      let xmin := ((40 - shift) + j)%Z in
      trow ← getitem (rows temp) i;
      v ← getitem trow xmin;
      setcell result i j v) result) result.

(** ** Channel extraction and cropping *)

(** A pixel of the 3-channel image, [image[i, j, :]]. *)
Record rgb := RGB { chan0 : Q; chan1 : Q; chan2 : Q }.

Inductive channel := Ch0 | Ch1 | Ch2.

Definition get_channel (c : channel) (p : rgb) : Q :=
  match c with Ch0 => chan0 p | Ch1 => chan1 p | Ch2 => chan2 p end.

Definition set_channel (c : channel) (v : Q) (p : rgb) : rgb :=
  match c with
  | Ch0 => RGB v (chan1 p) (chan2 p)
  | Ch1 => RGB (chan0 p) v (chan2 p)
  | Ch2 => RGB (chan0 p) (chan1 p) v
  end.

(** An operation applied to every element. *)
Definition amap {A B} (f : A → B) (a : ndarray A) : ndarray B :=
  NdArray (ncols a) ((λ row : list A, f <$> row) <$> rows a).

(** Lines 31-59: the channels other than the wanted one are zeroed in a
    copy, and the wanted one is returned. *)
Definition extract_red (image : ndarray rgb) : ndarray Q :=
  let imagecopy := np_copy image in
  let imagecopy := amap (set_channel Ch1 0) imagecopy in
  let imagecopy := amap (set_channel Ch2 0) imagecopy in
  let red_image := amap (get_channel Ch0) imagecopy in
  red_image.

Definition extract_green (image : ndarray rgb) : ndarray Q :=
  let imagecopy := np_copy image in
  let imagecopy := amap (set_channel Ch0 0) imagecopy in
  let imagecopy := amap (set_channel Ch2 0) imagecopy in
  let green_image := amap (get_channel Ch1) imagecopy in
  green_image.

(** [np.delete(a, obj, 1)]: the array without column [obj]. *)
Definition np_delete {A} (a : ndarray A) (obj : Z) : result (ndarray A) :=
  i ← index (ncols a) obj;
  Ok (NdArray (ncols a - 1) ((λ row : list A, delete i row) <$> rows a)).

(** Lines 79-93. *)
Definition prepare_image (image : ndarray rgb) : result (ndarray Q * ndarray Q) :=
  let green := extract_green image in
  let red := extract_red image in
  green ← for_each (range 20) (λ _ green,
    green ← np_delete green 0;
    np_delete green (-1)) green;
  Ok (green, red).

(** ** Extended numbers *)

(** A float64 value: a number of [A], or one of the non-finite values. *)
Inductive ext (A : Type) := Fin (a : A) | PInf | NInf | NaN.
Arguments Fin {A} a.
Arguments PInf {A}.
Arguments NInf {A}.
Arguments NaN {A}.

Definition ext_opp {A} (x : ext A) : ext A :=
  match x with PInf => NInf | NInf => PInf | _ => x end.

(** An infinity times (or over) a value of the given sign. *)
Definition ext_signed {A} (inf : ext A) (sign : comparison) : ext A :=
  match sign with Gt => inf | Lt => ext_opp inf | Eq => NaN end.

Definition ext_add {A} (add : A → A → A) (x y : ext A) : ext A :=
  match x, y with
  | Fin a, Fin b => Fin (add a b)
  | NaN, _ | _, NaN => NaN
  | PInf, NInf | NInf, PInf => NaN
  | PInf, _ | _, PInf => PInf
  | NInf, _ | _, NInf => NInf
  end.

Definition np_add : ext Q → ext Q → ext Q := ext_add Qplus.

Definition np_mul (x y : ext Q) : ext Q :=
  match x, y with
  | Fin a, Fin b => Fin (a * b)%Q
  | NaN, _ | _, NaN => NaN
  | Fin a, inf | inf, Fin a => ext_signed inf (a ?= 0)%Q
  | PInf, inf | inf, PInf => inf
  | NInf, NInf => PInf
  end.

(** numpy scalar division: dividing by zero gives inf or nan (and a
    warning), never an exception. *)
Definition np_div (x y : ext Q) : ext Q :=
  match x, y with
  | Fin a, Fin b =>
      if Qeq_bool b 0 then ext_signed PInf (a ?= 0)%Q else Fin (a / b)%Q
  | NaN, _ | _, NaN => NaN
  | Fin _, _ => Fin 0%Q
  | inf, Fin b => if Qle_bool 0 b then inf else ext_opp inf
  | _, _ => NaN
  end.

(** The sign of a real number. *)
Definition Rsign (r : R) : comparison :=
  match total_order_T r 0 with
  | inleft (left _) => Lt
  | inleft (right _) => Eq
  | inright _ => Gt
  end.

(** [math.log(x, 2)]: a domain error unless [x] is positive (or nan). *)
Definition math_log2 (x : ext Q) : result (ext R) :=
  match x with
  | Fin a => if Qle_bool a 0 then Raise ValueError
             else Ok (Fin (ln (Q2R a) / ln 2)%R)
  | PInf => Ok PInf
  | NInf => Raise ValueError
  | NaN => Ok NaN
  end.

(** [p * l] for a float64 [p] and the logarithm [l]. *)
Definition times_log (p : ext Q) (l : ext R) : ext R :=
  match p, l with
  | Fin a, Fin r => Fin (Q2R a * r)%R
  | NaN, _ | _, NaN => NaN
  | Fin a, inf => ext_signed inf (a ?= 0)%Q
  | inf, Fin r => ext_signed (match inf with PInf => PInf | _ => NInf end) (Rsign r)
  | PInf, inf => inf
  | NInf, inf => ext_opp inf
  end.

Definition score_add : ext R → ext R → ext R := ext_add Rplus.

(** ** Histograms *)

(** [int(x)]: truncation toward zero. *)
Definition py_int (x : Q) : Z := (Qnum x `quot` Zpos (Qden x))%Z.

(** [len(l)] *)
Definition len {A} (l : list A) : Z := Z.of_nat (length l).

(** [marginal_pmf], lines 105-111: the raw histogram [hist_vals] and
    the pixel count [count].  [hist_vals[pix]] follows Python's indexing,
    so a negative [pix] counts from the end of the table; [pix] is an
    unbounded Python integer, and [hist_vals[pix] += 1] reads and then
    writes the entry. *)
Definition raw_histogram (image : ndarray Q) : result (list Z * Z) :=
  let hist_vals := replicate 256 0%Z in
  let count := 0%Z in
  for_each (rows image) (λ row st,
    for_each (range (len row)) (λ i '(hist_vals, count),
      x ← getitem row i;
      let pix := py_int x in
      h ← np_getitem hist_vals pix;
      hist_vals ← np_setitem hist_vals pix (h + 1)%Z;
      Ok (hist_vals, (count + 1)%Z)) st) (hist_vals, count).

(** [marginal_pmf], lines 112-120: the bins.  The assignment
    [i = i * bin_size] that ends the loop body is overwritten by the next
    iteration and has no effect.  [var] is a float64 from the first
    addition on, so [var / count] is a numpy division. *)
Definition bin_histogram (hist_vals : list Z) (count : Z) (bin_size : Z)
  : result (list (ext Q)) :=
  let hist_result := [] in
  starts ← range3 0 255 bin_size;
  for_each starts (λ i hist_result,
    var ← for_each (range bin_size) (λ j var,
      h ← getitem hist_vals (i + j)%Z;
      Ok (var + h)%Z) 0%Z;
    Ok (hist_result ++ [np_div (Fin (inject_Z var)) (Fin (inject_Z count))]))
    hist_result.

(** Lines 95-120; [id0] is not used by the code. *)
Definition marginal_pmf (image : ndarray Q) (bin_size : Z) (id0 : Z)
  : result (list (ext Q)) :=
  '(hist_vals, count) ← raw_histogram image;
  bin_histogram hist_vals count bin_size.

(** [np.zeros((nrow, ncol))] *)
Definition np_zeros (nrow ncol : nat) : ndarray (ext Q) :=
  NdArray ncol (replicate nrow (replicate ncol (Fin 0%Q))).

(** [np.sum(a)] *)
Definition np_sum (a : ndarray (ext Q)) : ext Q :=
  foldl np_add (Fin 0%Q) (concat (rows a)).

(** Lines 122-140. *)
Definition joint_pmf (x_pmf y_pmf : list (ext Q)) : result (ndarray (ext Q)) :=
  let nrow := length x_pmf in
  let ncol := length y_pmf in
  let hist_result := np_zeros nrow ncol in
  hist_result ← for_each (range (Z.of_nat nrow)) (λ i hist_result,
    for_each (range (Z.of_nat ncol)) (λ j hist_result,
      xi ← getitem x_pmf i;
      yj ← getitem y_pmf j;
      setcell hist_result i j (np_add xi yj)) hist_result) hist_result;
  let total := np_sum hist_result in
  Ok (amap (λ v, np_div v total) hist_result).

(** [a[i, j]] *)
Definition getcell {A} (a : ndarray A) (i j : Z) : result A :=
  r ← getitem (rows a) i; getitem r j.

(** ** Mutual information and the scan *)

(** Lines 142-170.  [px[i]], [py[j]] and [pxy[i, j]] are numpy scalars,
    so the division is [np_div]; [math.log] is the only operation that
    can raise.  The array [visual], filled for a plot that is commented
    out, takes no part in the result and is left out. *)
Definition mutual_information (image1 image2 : ndarray Q) (id0 : Z) (bin_size : Z)
  : result (ext R) :=
  px ← marginal_pmf image1 bin_size id0;
  py ← marginal_pmf image2 bin_size (id0 + 100)%Z;
  pxy ← joint_pmf px py;
  let mutual_information := Fin 0%R in
  for_each (range (len px)) (λ i mutual_information,
    for_each (range (len py)) (λ j mutual_information,
      xi ← getitem px i;
      yj ← getitem py j;
      let var1 := np_mul xi yj in
      pij ← getcell pxy i j;
      let var2 := np_div pij var1 in
      l ← math_log2 var2;
      let partial := times_log pij l in
      Ok (score_add mutual_information partial)) mutual_information)
    mutual_information.

(** A value of the returned list as Python sees it: the code appends a
    float, the specification speaks of (shift, score) pairs. *)
Inductive pyval :=
  | PyInt (n : Z)
  | PyFloat (x : ext R)
  | PyPair (a b : pyval).

(** Lines 18-28: the image is cast to uint8 and written to the file
    [fname].  The file itself is outside the model; the caller sees
    whether the call returns, and [io.imsave] raises ValueError on an
    array without pixels (no row, or no column). *)
Definition save {A} (image : ndarray A) (fname : string) : result unit :=
  if decide (nrows image = 0 ∨ ncols image = 0) then Raise ValueError else Ok ().

(** Lines 172-181. *)
Definition registration (image : ndarray rgb) : result (list pyval) :=
  '(reference, template) ← prepare_image image;
  _ ← save reference "ref.png";
  _ ← save template "temp.png";
  let results := [] in
  for_each (range 41) (λ i results,
    overlappingregion ← overlap reference template i;
    MI ← mutual_information reference overlappingregion i 3;
    Ok (results ++ [PyFloat MI])) results.

(** * Definitions for the statements *)

(** A numpy array is rectangular. *)
Definition wf {A} (a : ndarray A) : Prop :=
  Forall (λ r, length r = ncols a) (rows a).

(** [a[i][j]] read without the exception, for stating results. *)
Definition cell {A} (a : ndarray A) (i j : nat) : option A :=
  rows a !! i ≫= (.!! j).

(** The position a valid Python index [k] denotes in a sequence of length [n]. *)
Definition norm (n : nat) (k : Z) : nat :=
  Z.to_nat (if decide (0 ≤ k)%Z then k else (k + Z.of_nat n)%Z).

(** The copy when the scan stands at row [i], column [j0]: every cell
    before that position holds the pixel of [temp] the index formula names. *)
Definition scanned {A} (ref temp : ndarray A) (shift : Z) (i j0 : nat)
    (res : ndarray A) : Prop :=
  wf res ∧ nrows res = nrows ref ∧ ncols res = ncols ref ∧
  ∀ i' j, i' < i ∨ (i' = i ∧ j < j0) → i' < nrows ref → j < ncols ref →
    ∃ v, cell res i' j = Some v ∧
         cell temp i' (norm (ncols temp) (40 - shift + Z.of_nat j)) = Some v.

(** Every source column of the window is a valid index of a row of [temp]. *)
Definition columns_valid {A} (ref temp : ndarray A) (shift : Z) : Prop :=
  (- Z.of_nat (ncols temp) ≤ 40 - shift)%Z ∧
  (40 - shift + Z.of_nat (ncols ref) ≤ Z.of_nat (ncols temp))%Z.

Definition is_finite {A} (x : ext A) : bool :=
  match x with Fin _ => true | _ => false end.


(** Synthetic arrays: a 2x3 reference and a 2x43 comparison whose pixel
    at row [i], column [c] is [100 * i + c]. *)
Definition ref_2x3 : ndarray Z := NdArray 3 [[-1; -1; -1]; [-1; -1; -1]]%Z.
Definition temp_2x43 : ndarray Z :=
  NdArray 43 [Z.of_nat <$> seq 0 43; Z.of_nat <$> seq 100 43].

(** The array without its first [k] and its last [k] columns. *)
Definition crop {A} (k : nat) (a : ndarray A) : ndarray A :=
  NdArray (ncols a - 2 * k)
          ((λ row : list A, take (ncols a - 2 * k) (drop k row)) <$> rows a).

(** A 1x41 image whose pixels are all black. *)
Definition black_1x41 : ndarray rgb := NdArray 41 [replicate 41 (RGB 0 0 0)].

(** The pixels of an image in scan order. *)
Definition pixels (image : ndarray Q) : list Q := concat (rows image).

(** One pixel counted: the body of the histogram loop. *)
Definition tally (x : Q) (st : list Z * Z) : result (list Z * Z) :=
  let '(hist_vals, count) := st in
  let pix := py_int x in
  h ← np_getitem hist_vals pix;
  hist_vals ← np_setitem hist_vals pix (h + 1)%Z;
  Ok (hist_vals, (count + 1)%Z).

(** The truncated intensity indexes the 256-entry table. *)
Definition in_table (x : Q) : Prop := (-256 ≤ py_int x < 256)%Z.

(** How many of the truncated intensities [vs] index entry [b] of the table. *)
Definition bin_count (b : nat) (vs : list Z) : Z :=
  Z.of_nat (length (filter (λ v, norm 256 v = b) vs)).

Definition Zsum (l : list Z) : Z := foldr Z.add 0%Z l.

(** The sum of the [bs] table entries from [i] on. *)
Definition bin_sum (h : list Z) (i bs : nat) : Z := Zsum (take bs (drop i h)).

(** The number of bins: the starts [0, bin_size, ...] below 255. *)
Definition nbins (bin_size : Z) : nat := Z.to_nat ((254 + bin_size) `div` bin_size).

(** The last bin ends inside the 256-entry table. *)
Definition bins_fit (bin_size : Z) : Prop :=
  (0 < bin_size ∧ Z.of_nat (nbins bin_size) * bin_size ≤ 256)%Z.

(** An entry of a marginal PMF: a non-negative number, or nan (the image
    has no pixel). *)
Definition pmf_entry (v : ext Q) : Prop := v = NaN ∨ ∃ q, v = Fin q ∧ (0 <= q)%Q.

(** The PMF entry the loop appends for the bin starting at [i]. *)
Definition bin_entry (h : list Z) (c : Z) (bs i : nat) : ext Q :=
  np_div (Fin (inject_Z (bin_sum h i bs))) (Fin (inject_Z c)).

(** The array during a fill: every cell before row [i], column [j0] holds
    its value [g i' j]. *)
Definition filled {A} (g : nat → nat → A) (h w : nat) (i j0 : nat) (a : ndarray A)
  : Prop :=
  wf a ∧ nrows a = h ∧ ncols a = w ∧
  ∀ i' j, i' < i ∨ (i' = i ∧ j < j0) → i' < h → j < w → cell a i' j = Some (g i' j).

(** The array whose cell [(i, j)] is [g i j]. *)
Definition tabulate {A} (g : nat → nat → A) (h w : nat) : ndarray A :=
  NdArray w ((λ i, g i <$> seq 0 w) <$> seq 0 h).

#[global] Instance ext_inhabited {A} : Inhabited (ext A) := populate NaN.

(** The additive combination, before it is normalised. *)
Definition joint_raw (x y : list (ext Q)) : ndarray (ext Q) :=
  tabulate (λ i j, np_add (x !!! i) (y !!! j)) (length x) (length y).

Definition Qsum (l : list Q) : Q := foldr Qplus 0%Q l.

(** The sums [x + y] over the cross product, row by row. *)
Definition pair_sums (xs ys : list Q) : list Q :=
  concat ((λ a, Qplus a <$> ys) <$> xs).

(** A bin without probability mass. *)
Definition zero_mass (v : ext Q) : Prop := ∃ q, v = Fin q ∧ (q == 0)%Q.

(** A cell before position [(i, j)] of the scan has a marginal without mass. *)
Definition zero_before (px py : list (ext Q)) (i j : nat) : Prop :=
  ∃ i' j' xi yj, (i' < i ∨ (i' = i ∧ j' < j)) ∧
    px !! i' = Some xi ∧ py !! j' = Some yj ∧ (zero_mass xi ∨ zero_mass yj).

(** A 1x1 image of intensity 0, and one of intensity 255. *)
Definition dark_1x1 : ndarray Q := NdArray 1 [[0%Q]].
Definition bright_1x1 : ndarray Q := NdArray 1 [[255%Q]].

(** [sum(pmf)] *)
Definition pmf_sum (pmf : list (ext Q)) : ext Q := foldl np_add (Fin 0%Q) pmf.

(** [ceil(a / b)] for positive [b]. *)
Definition ceil_div (a b : Z) : Z := ((a + b - 1) `div` b)%Z.

(** A 1x2 image with the intensities -1 and 3. *)
Definition noisy_1x2 : ndarray Q := NdArray 2 [[-1; 3]%Q].

(** The red and the green intensity of every pixel index the table. *)
Definition channels_in_table (image : ndarray rgb) : Prop :=
  Forall (λ p, in_table (chan0 p) ∧ in_table (chan1 p)) (concat (rows image)).

(** The list of 41 (shift, score) pairs that the specification describes. *)
Definition shift_score_pairs (scores : list (ext R)) : list pyval :=
  imap (λ k s, PyPair (PyInt (Z.of_nat k)) (PyFloat s)) scores.

(** A bin with probability mass. *)
Definition positive_mass (v : ext Q) : Prop := ∃ q, v = Fin q ∧ (0 < q)%Q.

(** Every cell before position [(i, j)] of the scan has marginals and a
    total with mass. *)
Definition mass_before (px py : list (ext Q)) (total : ext Q) (i j : nat) : Prop :=
  ∀ i' j' xi yj, i' < i ∨ (i' = i ∧ j' < j) →
    px !! i' = Some xi → py !! j' = Some yj →
    positive_mass xi ∧ positive_mass yj ∧ positive_mass total.

(** A 1x1 image of intensity 256, and an image without rows. *)
Definition saturated_1x1 : ndarray Q := NdArray 1 [[256%Q]].
Definition no_pixels : ndarray Q := NdArray 0 [].

(** The table after the pixels of [noisy_1x2]: one count at 3, one at 255. *)
Definition noisy_table : list Z := <[255 := 1%Z]> (<[3 := 1%Z]> (replicate 256 0%Z)).

(** A 1x1 and a 1x40 black colour image, and a second 2x3 reference. *)
Definition black_1x1 : ndarray rgb := NdArray 1 [[RGB 0 0 0]].
Definition ref_2x3_sevens : ndarray Z := NdArray 3 [[7; 7; 7]; [7; 7; 7]]%Z.

(** * Proofs *)

(** ** Loop rules *)

Section loops.
Context {A St : Type}.
Implicit Types (l : list A) (body : A → St → result St).

Lemma for_each_app l1 l2 body s :
  for_each (l1 ++ l2) body s = s' ← for_each l1 body s; for_each l2 body s'.
Proof.
  revert s; induction l1 as [|x l1 IH]; intros s; simpl; [done|].
  destruct (body x s); simpl; auto.
Qed.

(** Invariant rule: [P k s] holds before iteration [k]. *)
Lemma for_each_inv (P : nat → St → Prop) l body s :
  P 0 s →
  (∀ k x s, l !! k = Some x → P k s → ∃ s', body x s = Ok s' ∧ P (S k) s') →
  ∃ s', for_each l body s = Ok s' ∧ P (length l) s'.
Proof.
  revert P s; induction l as [|x l IH]; intros P s H0 Hstep; simpl.
  - eauto.
  - destruct (Hstep 0 x s) as (s1 & -> & H1); [done..|]. simpl.
    apply (IH (λ k, P (S k))); [done|].
    intros k y s2 Hy; apply (Hstep (S k)); done.
Qed.

(** A loop that returned ran every iteration to its end. *)
Lemma for_each_Ok_elem l body s s' x :
  for_each l body s = Ok s' → x ∈ l → ∃ s1 s2, body x s1 = Ok s2.
Proof.
  revert s; induction l as [|y l IH]; intros s Hrun Hx.
  - by apply elem_of_nil in Hx.
  - simpl in Hrun. destruct (body y s) as [s1|e] eqn:Hy; [|done].
    apply elem_of_cons in Hx as [->|Hx]; eauto.
Qed.

(** A loop raises only what its body raises. *)
Lemma for_each_Raise l body s e :
  for_each l body s = Raise e → ∃ x s1, x ∈ l ∧ body x s1 = Raise e.
Proof.
  revert s; induction l as [|y l IH]; intros s Hrun; [done|].
  simpl in Hrun. destruct (body y s) as [s1|e'] eqn:Hy; simpl in Hrun.
  - destruct (IH _ Hrun) as (x & s2 & ? & ?). exists x, s2. split; [by right|done].
  - injection Hrun as ->. exists y, s. split; [by left|done].
Qed.
End loops.

(** [loop_inv P] applies the invariant rule to the loop of the goal. *)
Ltac loop_inv P :=
  match goal with
  | |- context [for_each ?l ?b ?s] =>
      let res := fresh "res" in
      let Hrun := fresh "Hrun" in
      let Hfin := fresh "Hfin" in
      destruct (for_each_inv P l b s) as (res & Hrun & Hfin)
  end.

(** ** Indexing lemmas *)

Lemma index_Ok n k :
  (- Z.of_nat n ≤ k < Z.of_nat n)%Z → index n k = Ok (norm n k).
Proof.
  intros Hk. unfold index, norm.
  repeat case_decide; try done; lia.
Qed.

Lemma index_Ok_inv n k i :
  index n k = Ok i → (- Z.of_nat n ≤ k < Z.of_nat n)%Z ∧ i = norm n k ∧ i < n.
Proof.
  unfold index, norm. repeat case_decide; intros [= <-]; repeat split; lia.
Qed.

Lemma index_Raise n k e :
  index n k = Raise e → e = IndexError ∧ (k < - Z.of_nat n ∨ Z.of_nat n ≤ k)%Z.
Proof.
  unfold index. repeat case_decide; intros [= <-]. split; [done|lia].
Qed.

Lemma index_of_nat n (i : nat) : i < n → index n (Z.of_nat i) = Ok i.
Proof.
  intros Hi. rewrite index_Ok by lia. unfold norm.
  rewrite decide_True by lia. by rewrite Nat2Z.id.
Qed.

Lemma getitem_Ok {A} (l : list A) k :
  (- Z.of_nat (length l) ≤ k < Z.of_nat (length l))%Z →
  ∃ x, getitem l k = Ok x ∧ l !! norm (length l) k = Some x.
Proof.
  intros Hk. unfold getitem. rewrite index_Ok by done. simpl.
  destruct (lookup_lt_is_Some_2 l (norm (length l) k)) as [x Hx].
  { unfold norm. case_decide; lia. }
  exists x. by rewrite Hx.
Qed.

Lemma getitem_Ok_inv {A} (l : list A) k x :
  getitem l k = Ok x →
  (- Z.of_nat (length l) ≤ k < Z.of_nat (length l))%Z ∧ l !! norm (length l) k = Some x.
Proof.
  unfold getitem. destruct (index (length l) k) as [i|e] eqn:Hi; [|done]. simpl.
  apply index_Ok_inv in Hi as (Hk & -> & _).
  destruct (l !! norm (length l) k); [|done]. by intros [= ->].
Qed.

Lemma getitem_Raise {A} (l : list A) k e : getitem l k = Raise e → e = IndexError.
Proof.
  unfold getitem. destruct (index (length l) k) as [i|e'] eqn:Hi; simpl.
  - destruct (l !! i); [done|]. by intros [= <-].
  - intros [= <-]. by apply index_Raise in Hi as [-> _].
Qed.

Lemma getitem_of_nat {A} (l : list A) (i : nat) x :
  l !! i = Some x → getitem l (Z.of_nat i) = Ok x.
Proof.
  intros Hx. unfold getitem.
  rewrite index_of_nat by (by eapply lookup_lt_Some). simpl. by rewrite Hx.
Qed.

Lemma setitem_of_nat {A} (l : list A) (i : nat) x :
  i < length l → setitem l (Z.of_nat i) x = Ok (<[i := x]> l).
Proof. intros Hi. unfold setitem. by rewrite index_of_nat. Qed.

Lemma setitem_Raise {A} (l : list A) k x e : setitem l k x = Raise e → e = IndexError.
Proof.
  unfold setitem. destruct (index (length l) k) as [i|e'] eqn:Hi; simpl; [done|].
  intros [= <-]. by apply index_Raise in Hi as [-> _].
Qed.

Lemma range_of_nat (n : nat) : range (Z.of_nat n) = Z.of_nat <$> seq 0 n.
Proof. unfold range. by rewrite Nat2Z.id. Qed.

Lemma range_lookup (n k : nat) x :
  range (Z.of_nat n) !! k = Some x → x = Z.of_nat k ∧ k < n.
Proof.
  rewrite range_of_nat, list_lookup_fmap.
  destruct (seq 0 n !! k) as [y|] eqn:Hy; [|done].
  apply lookup_seq in Hy as [-> ?]. by intros [= <-].
Qed.

Lemma range_length (n : nat) : length (range (Z.of_nat n)) = n.
Proof. by rewrite range_of_nat, length_fmap, length_seq. Qed.

Lemma range_elem (n j : nat) : j < n → Z.of_nat j ∈ range (Z.of_nat n).
Proof.
  intros Hj. rewrite range_of_nat. apply list_elem_of_fmap.
  exists j. split; [done|]. apply elem_of_seq. lia.
Qed.

(** ** Array lemmas *)

Lemma wf_row {A} (a : ndarray A) i r :
  wf a → rows a !! i = Some r → length r = ncols a.
Proof. intros Hwf Hr. by eapply (Forall_lookup_1 _ _ _ _ Hwf). Qed.

Lemma setcell_of_nat {A} (a : ndarray A) (i j : nat) v :
  wf a → i < nrows a → j < ncols a →
  ∃ r, rows a !! i = Some r ∧
       setcell a (Z.of_nat i) (Z.of_nat j) v
       = Ok (NdArray (ncols a) (<[i := <[j := v]> r]> (rows a))).
Proof.
  intros Hwf Hi Hj.
  destruct (lookup_lt_is_Some_2 (rows a) i Hi) as [r Hr].
  exists r. split; [done|]. unfold setcell.
  rewrite (getitem_of_nat _ _ _ Hr). simpl.
  rewrite setitem_of_nat by (by rewrite (wf_row a i r)). simpl.
  by rewrite setitem_of_nat.
Qed.

Lemma cell_update {A} (a : ndarray A) (i j i' j' : nat) r v :
  rows a !! i = Some r → j < length r →
  cell (NdArray (ncols a) (<[i := <[j := v]> r]> (rows a))) i' j'
  = if decide (i = i' ∧ j = j') then Some v else cell a i' j'.
Proof.
  intros Hr Hj. unfold cell. simpl.
  destruct (decide (i = i')) as [<-|Hne].
  - rewrite list_lookup_insert_eq by (by eapply lookup_lt_Some). simpl.
    rewrite Hr. simpl.
    destruct (decide (j = j')) as [<-|Hne'].
    + rewrite decide_True by done. by rewrite list_lookup_insert_eq.
    + rewrite decide_False by tauto. by rewrite list_lookup_insert_ne.
  - rewrite decide_False by tauto. by rewrite list_lookup_insert_ne.
Qed.

Lemma wf_update {A} (a : ndarray A) (i j : nat) r v :
  wf a → rows a !! i = Some r →
  wf (NdArray (ncols a) (<[i := <[j := v]> r]> (rows a))).
Proof.
  intros Hwf Hr. unfold wf. simpl. apply Forall_insert; [done|].
  rewrite length_insert. by eapply wf_row.
Qed.

(** ** The overlap scan *)

Section overlap_proofs.
Context {A : Type}.
Implicit Types (ref temp res : ndarray A).

Lemma overlap_row ref temp shift i res :
  wf temp → i < nrows ref → i < nrows temp → columns_valid ref temp shift →
  scanned ref temp shift i 0 res →
  ∃ res', for_each (range (Z.of_nat (ncols ref))) (λ j result,
            let xmin := ((40 - shift) + j)%Z in
            trow ← getitem (rows temp) (Z.of_nat i);
            v ← getitem trow xmin;
            setcell result (Z.of_nat i) j v) res = Ok res' ∧
          scanned ref temp shift (S i) 0 res'.
Proof.
  intros Hwt Hi Hit [Hlo Hhi] Hres.
  destruct (lookup_lt_is_Some_2 (rows temp) i Hit) as [trow Htrow].
  pose proof (wf_row _ _ _ Hwt Htrow) as Hlen.
  loop_inv (λ j0, scanned ref temp shift i j0); [exact Hres| |].
  - intros k x s Hx (Hwf & Hnr & Hnc & Hcells).
    apply range_lookup in Hx as [-> Hk]. simpl.
    rewrite (getitem_of_nat _ _ _ Htrow). simpl.
    destruct (getitem_Ok trow (40 - shift + Z.of_nat k)) as (v & -> & Hv); [lia|]. simpl.
    destruct (setcell_of_nat s i k v) as (r & Hr & ->); [done|lia..|].
    eexists. split; [done|].
    split; [by eapply wf_update|]. split; [unfold nrows in *; simpl; by rewrite length_insert|].
    split; [done|]. intros i' j Hpos Hi' Hj.
    rewrite cell_update by (done || (rewrite (wf_row s i r); [lia|done..])).
    case_decide as Hij.
    + destruct Hij as [<- <-]. exists v. split; [done|].
      unfold cell. rewrite Htrow. simpl. by rewrite <-Hlen.
    + apply Hcells; [|done..]. destruct Hpos as [?|[-> ?]]; [by left|].
      right. split; [done|]. destruct (decide (j = k)) as [->|]; [tauto|lia].
  - exists res0. split; [exact Hrun|].
    rewrite range_length in Hfin. destruct Hfin as (Hwf & Hnr & Hnc & Hcells).
    repeat split; try done. intros i' j Hpos Hi' Hj. apply Hcells; [|done..].
    destruct Hpos as [?|[_ ?]]; [|lia].
    destruct (decide (i' = i)) as [->|]; [by right|left; lia].
Qed.

(** Rows are scanned without a read when the reference has no column. *)
Lemma overlap_row_empty ref temp shift i res :
  ncols ref = 0 →
  for_each (range (Z.of_nat (ncols ref))) (λ j result,
    let xmin := ((40 - shift) + j)%Z in
    trow ← getitem (rows temp) (Z.of_nat i);
    v ← getitem trow xmin;
    setcell result (Z.of_nat i) j v) res = Ok res.
Proof. by intros ->. Qed.

Lemma overlap_Ok ref temp shift :
  wf ref → wf temp →
  (0 < nrows ref → 0 < ncols ref →
   nrows ref ≤ nrows temp ∧ columns_valid ref temp shift) →
  ∃ res, overlap ref temp shift = Ok res ∧ scanned ref temp shift (nrows ref) 0 res.
Proof.
  intros Hwr Hwt Hok. unfold overlap, np_copy, np_shape. simpl.
  loop_inv (λ i, scanned ref temp shift i 0); [| |exists res; split; [exact Hrun|]].
  - repeat split; try done. intros i' j [?|[_ ?]]; lia.
  - intros k x s Hx Hs. apply range_lookup in Hx as [-> Hk].
    destruct (decide (ncols ref = 0)) as [Hz|Hnz].
    + rewrite overlap_row_empty by done. eexists. split; [done|].
      destruct Hs as (? & ? & ? & ?). repeat split; try done. intros; lia.
    + destruct Hok as [Hrows Hcols]; [lia..|].
      apply overlap_row; [done|done|lia|done|done].
  - by rewrite range_length in Hfin.
Qed.

(** What a returned scan tells about the indices it used. *)
Lemma overlap_Ok_inv ref temp shift res :
  wf temp → overlap ref temp shift = Ok res →
  0 < nrows ref → 0 < ncols ref →
  nrows ref ≤ nrows temp ∧ columns_valid ref temp shift.
Proof.
  intros Hwt Hrun Hr Hc. unfold overlap, np_copy, np_shape in Hrun. simpl in Hrun.
  assert (∀ j, j < ncols ref →
    ∃ trow, rows temp !! (nrows ref - 1) = Some trow ∧
      (- Z.of_nat (length trow) ≤ 40 - shift + Z.of_nat j < Z.of_nat (length trow))%Z)
    as Hcell.
  { intros j Hj.
    destruct (for_each_Ok_elem _ _ _ _ (Z.of_nat (nrows ref - 1)) Hrun)
      as (s1 & s2 & Hrow); [apply range_elem; lia|].
    destruct (for_each_Ok_elem _ _ _ _ (Z.of_nat j) Hrow)
      as (s3 & s4 & Hbody); [by apply range_elem|].
    simpl in Hbody.
    destruct (getitem (rows temp) (Z.of_nat (nrows ref - 1))) as [trow|] eqn:Ht; [|done].
    simpl in Hbody.
    destruct (getitem trow (40 - shift + Z.of_nat j)) as [v|] eqn:Hv; [|done].
    apply getitem_Ok_inv in Ht as [Hb Ht], Hv as [Hv _].
    unfold norm in Ht. rewrite decide_True, Nat2Z.id in Ht by lia.
    exists trow. done. }
  destruct (Hcell 0) as (trow & Ht & H0); [done|].
  destruct (Hcell (ncols ref - 1)) as (trow' & Ht' & H1); [lia|].
  assert (trow' = trow) as -> by congruence.
  rewrite (wf_row _ _ _ Hwt Ht) in H0, H1.
  apply lookup_lt_Some in Ht. unfold nrows, columns_valid in *. lia.
Qed.

Lemma overlap_Raise ref temp shift e :
  overlap ref temp shift = Raise e → e = IndexError.
Proof.
  intros Hrun. unfold overlap in Hrun.
  apply for_each_Raise in Hrun as (i & s1 & _ & Hrow).
  apply for_each_Raise in Hrow as (j & s2 & _ & Hbody). simpl in Hbody.
  destruct (getitem (rows temp) i) as [trow|e1] eqn:Ht; simpl in Hbody;
    [|injection Hbody as <-; by eapply getitem_Raise].
  destruct (getitem trow _) as [v|e2] eqn:Hv; simpl in Hbody;
    [|injection Hbody as <-; by eapply getitem_Raise].
  unfold setcell in Hbody.
  destruct (getitem (rows s2) i) as [r|e3] eqn:Hr; simpl in Hbody;
    [|injection Hbody as <-; by eapply getitem_Raise].
  destruct (setitem r j v) as [r'|e4] eqn:Hr'; simpl in Hbody;
    [|injection Hbody as <-; by eapply setitem_Raise].
  destruct (setitem (rows s2) i r') as [rs|e5] eqn:Hrs; simpl in Hbody;
    [done|injection Hbody as <-; by eapply setitem_Raise].
Qed.

End overlap_proofs.

(** ** Results on [overlap] *)

(** C2: for a shift in [0, 40] and a comparison at least 40 columns wider
    than the reference (and with a row for each reference row),
    [overlap] returns an array of the reference's dimensions whose pixel
    at row [i], column [j] is [temp[i][(40 - shift) + j]]. *)
Theorem overlap_window {A} (ref temp : ndarray A) (shift : Z) :
  wf ref → wf temp → (0 ≤ shift ≤ 40)%Z →
  ncols ref + 40 ≤ ncols temp → nrows ref ≤ nrows temp →
  ∃ res, overlap ref temp shift = Ok res ∧
    wf res ∧ nrows res = nrows ref ∧ ncols res = ncols ref ∧
    ∀ i j, i < nrows ref → j < ncols ref →
      ∃ v, cell res i j = Some v ∧
           cell temp i (Z.to_nat (40 - shift) + j) = Some v.
Proof.
  intros Hwr Hwt Hs Hw Hh.
  destruct (overlap_Ok ref temp shift) as (res & Hrun & Hwf & Hnr & Hnc & Hcells);
    [done|done| |].
  { intros _ _. split; [done|]. unfold columns_valid. lia. }
  exists res. repeat split; try done.
  intros i j Hi Hj. destruct (Hcells i j) as (v & Hv & Ht); [lia|done..|].
  exists v. split; [done|]. rewrite <-Ht. f_equal.
  unfold norm. rewrite decide_True by lia. lia.
Qed.

Lemma overlap_window_witness :
  wf ref_2x3 ∧ wf temp_2x43 ∧ (0 ≤ 0 ≤ 40)%Z ∧
  ncols ref_2x3 + 40 ≤ ncols temp_2x43 ∧ nrows ref_2x3 ≤ nrows temp_2x43 ∧
  ∃ res, overlap ref_2x3 temp_2x43 0 = Ok res ∧
    wf res ∧ nrows res = nrows ref_2x3 ∧ ncols res = ncols ref_2x3 ∧
    ∀ i j, i < nrows ref_2x3 → j < ncols ref_2x3 →
      ∃ v, cell res i j = Some v ∧
           cell temp_2x43 i (Z.to_nat (40 - 0) + j) = Some v.
Proof.
  assert (wf ref_2x3) as H1 by (repeat constructor).
  assert (wf temp_2x43) as H2 by (repeat constructor).
  assert (0 ≤ 0 ≤ 40)%Z as H3 by lia.
  assert (ncols ref_2x3 + 40 ≤ ncols temp_2x43) as H4 by (simpl; lia).
  assert (nrows ref_2x3 ≤ nrows temp_2x43) as H5 by (unfold nrows; simpl; lia).
  exact (conj H1 (conj H2 (conj H3 (conj H4 (conj H5
           (overlap_window ref_2x3 temp_2x43 0 H1 H2 H3 H4 H5)))))).
Defined.

(** The two ends of the scan on the synthetic arrays: shift 0 reads the
    columns from 40 on, shift 40 the columns from 0 on. *)
Example overlap_shift_0 :
  overlap ref_2x3 temp_2x43 0 = Ok (NdArray 3 [[40; 41; 42]; [140; 141; 142]]%Z).
Proof. reflexivity. Qed.

Example overlap_shift_40 :
  overlap ref_2x3 temp_2x43 40 = Ok (NdArray 3 [[0; 1; 2]; [100; 101; 102]]%Z).
Proof. reflexivity. Qed.




(** ** Cropping *)

Lemma amap_cell {A B} (f : A → B) (a : ndarray A) i j :
  cell (amap f a) i j = f <$> cell a i j.
Proof.
  unfold cell, amap. simpl. rewrite list_lookup_fmap.
  destruct (rows a !! i) as [row|]; simpl; [|done]. apply list_lookup_fmap.
Qed.

Lemma amap_wf {A B} (f : A → B) (a : ndarray A) : wf a → wf (amap f a).
Proof.
  unfold wf, amap. simpl. intros Hwf. apply Forall_fmap.
  eapply Forall_impl; [exact Hwf|]. intros row Hrow. simpl. by rewrite length_fmap.
Qed.

Lemma crop_cell {A} k (a : ndarray A) i j :
  j < ncols a - 2 * k → cell (crop k a) i j = cell a i (k + j).
Proof.
  intros Hj. unfold cell, crop. simpl. rewrite list_lookup_fmap.
  destruct (rows a !! i) as [row|]; simpl; [|done].
  rewrite lookup_take_lt by done. apply lookup_drop.
Qed.

Lemma crop_wf {A} k (a : ndarray A) : wf a → wf (crop k a).
Proof.
  unfold wf, crop. simpl. intros Hwf. apply Forall_fmap.
  eapply Forall_impl; [exact Hwf|]. intros row Hrow. simpl in *.
  rewrite length_take, length_drop. lia.
Qed.

Lemma fmap_Forall_ext {A B} (f g : A → B) (l : list A) :
  Forall (λ x, f x = g x) l → f <$> l = g <$> l.
Proof. induction 1 as [|x l Hx _ IH]; simpl in *; [done|]. by f_equal. Qed.

Lemma crop_0 {A} (a : ndarray A) : wf a → crop 0 a = a.
Proof.
  intros Hwf. destruct a as [n rs]. unfold crop, wf in *. simpl in *.
  rewrite Nat.sub_0_r. f_equal. rewrite <-(list_fmap_id rs) at 2.
  apply fmap_Forall_ext. eapply Forall_impl; [exact Hwf|].
  intros row Hrow. simpl in *. rewrite drop_0. apply take_ge. lia.
Qed.

Lemma delete_first {A} (l : list A) : delete 0 l = drop 1 l.
Proof. by destruct l. Qed.

Lemma delete_last {A} (l : list A) n : length l = S n → delete n l = take n l.
Proof.
  intros Hl. rewrite delete_take_drop, drop_ge by lia. apply app_nil_r.
Qed.

Lemma index_first n : 0 < n → index n 0 = Ok 0.
Proof. intros Hn. unfold index. rewrite decide_True by lia. done. Qed.

Lemma index_last n : 0 < n → index n (-1) = Ok (n - 1).
Proof.
  intros Hn. unfold index. rewrite decide_False, decide_True by lia.
  f_equal. lia.
Qed.

Lemma np_delete_first {A} (a : ndarray A) :
  0 < ncols a →
  np_delete a 0 = Ok (NdArray (ncols a - 1) ((λ row : list A, drop 1 row) <$> rows a)).
Proof.
  intros Hn. unfold np_delete. rewrite index_first by done. simpl.
  do 2 f_equal. apply list_fmap_ext. intros _ row _. apply delete_first.
Qed.

Lemma np_delete_last {A} (a : ndarray A) :
  wf a → 0 < ncols a →
  np_delete a (-1)
  = Ok (NdArray (ncols a - 1) ((λ row : list A, take (ncols a - 1) row) <$> rows a)).
Proof.
  intros Hwf Hn. unfold np_delete. rewrite index_last by done. simpl.
  do 2 f_equal. apply fmap_Forall_ext. eapply Forall_impl; [exact Hwf|].
  intros row Hrow. cbn beta in Hrow. apply delete_last. lia.
Qed.

(** One round of the cropping loop. *)
Lemma crop_step {A} k (a : ndarray A) :
  wf a → 2 * k + 2 ≤ ncols a →
  (green ← np_delete (crop k a) 0; np_delete green (-1)) = Ok (crop (S k) a).
Proof.
  intros Hwf Hk. rewrite np_delete_first by (simpl; lia).
  cbn [mbind result_bind]. rewrite np_delete_last; cbn [ncols rows crop]; [|..|lia].
  - unfold crop. f_equal. f_equal; [lia|].
    rewrite <-!list_fmap_compose. apply list_fmap_ext. intros _ row _. cbn [compose].
    apply list_eq. intros i.
    rewrite !lookup_take, !lookup_drop, lookup_take, lookup_drop.
    repeat case_decide; try done; try lia. f_equal. lia.
  - unfold wf. cbn [ncols rows]. rewrite <-list_fmap_compose. apply Forall_fmap.
    eapply Forall_impl; [exact Hwf|]. intros row Hrow. cbn beta in Hrow. cbn [compose].
    rewrite length_drop, length_take, length_drop. lia.
Qed.

Lemma crop_loop {A} (a : ndarray A) (n : nat) :
  wf a → 2 * n ≤ ncols a →
  for_each (range (Z.of_nat n)) (λ _ green,
    green ← np_delete green 0;
    np_delete green (-1)) a = Ok (crop n a).
Proof.
  intros Hwf Hn.
  loop_inv (λ k (g : ndarray A), g = crop k a).
  - by rewrite crop_0.
  - intros k x s Hx ->. apply range_lookup in Hx as [_ Hk].
    eexists. split; [|done]. apply crop_step; [done|lia].
  - rewrite range_length in Hfin. by subst.
Qed.

Lemma prepare_image_eq (image : ndarray rgb) :
  wf image → 40 ≤ ncols image →
  prepare_image image = Ok (crop 20 (amap chan1 image), amap chan0 image).
Proof.
  intros Hwf H40. unfold prepare_image.
  replace (extract_green image) with (amap chan1 image).
  2:{ unfold extract_green, np_copy, amap. simpl. f_equal.
      rewrite <-!list_fmap_compose. apply list_fmap_ext. intros _ row _. simpl.
      rewrite <-!list_fmap_compose. by apply list_fmap_ext. }
  replace (extract_red image) with (amap chan0 image).
  2:{ unfold extract_red, np_copy, amap. simpl. f_equal.
      rewrite <-!list_fmap_compose. apply list_fmap_ext. intros _ row _. simpl.
      rewrite <-!list_fmap_compose. by apply list_fmap_ext. }
  change 20%Z with (Z.of_nat 20). rewrite crop_loop; [done|by apply amap_wf|].
  simpl. lia.
Qed.

(** C8: for a 3-channel image of width [W] (at least 40, so that 40
    columns can be removed), [prepare_image] returns as reference the
    green channel without its first 20 and last 20 columns, of width
    [W - 40], and as comparison the whole red channel, of width [W]. *)
Theorem prepare_image_crops (image : ndarray rgb) (W : nat) :
  wf image → ncols image = W → 40 ≤ W →
  ∃ reference comparison,
    prepare_image image = Ok (reference, comparison) ∧
    wf reference ∧ wf comparison ∧
    nrows reference = nrows image ∧ nrows comparison = nrows image ∧
    ncols reference = W - 40 ∧ ncols comparison = W ∧
    ncols reference + 40 = ncols comparison ∧
    (∀ i j, j < W - 40 → cell reference i j = chan1 <$> cell image i (20 + j)) ∧
    (∀ i j, cell comparison i j = chan0 <$> cell image i j).
Proof.
  intros Hwf HW H40.
  exists (crop 20 (amap chan1 image)), (amap chan0 image).
  split; [apply prepare_image_eq; [done|lia]|].
  split; [by apply crop_wf, amap_wf|]. split; [by apply amap_wf|].
  unfold nrows. simpl. rewrite !length_fmap.
  repeat split; try lia.
  - intros i j Hj. rewrite crop_cell by (simpl; lia). apply amap_cell.
  - intros i j. apply amap_cell.
Qed.

Lemma prepare_image_crops_witness :
  wf black_1x41 ∧ ncols black_1x41 = 41 ∧ 40 ≤ 41 ∧
  ∃ reference comparison,
    prepare_image black_1x41 = Ok (reference, comparison) ∧
    wf reference ∧ wf comparison ∧
    nrows reference = nrows black_1x41 ∧ nrows comparison = nrows black_1x41 ∧
    ncols reference = 41 - 40 ∧ ncols comparison = 41 ∧
    ncols reference + 40 = ncols comparison ∧
    (∀ i j, j < 41 - 40 → cell reference i j = chan1 <$> cell black_1x41 i (20 + j)) ∧
    (∀ i j, cell comparison i j = chan0 <$> cell black_1x41 i j).
Proof.
  assert (wf black_1x41) as H1 by (repeat constructor).
  assert (ncols black_1x41 = 41) as H2 by reflexivity.
  assert (40 ≤ 41) as H3 by lia.
  exact (conj H1 (conj H2 (conj H3 (prepare_image_crops black_1x41 41 H1 H2 H3)))).
Defined.

(** ** More loop rules *)

Lemma for_each_ext {A St} (l : list A) (body1 body2 : A → St → result St) s :
  (∀ x s, x ∈ l → body1 x s = body2 x s) →
  for_each l body1 s = for_each l body2 s.
Proof.
  revert s; induction l as [|x l IH]; intros s Hext; simpl; [done|].
  rewrite Hext by left. destruct (body2 x s); simpl; [|done].
  apply IH. intros y s' Hy. apply Hext. by right.
Qed.

Lemma for_each_fmap {A B St} (g : B → A) (l : list B) (body : A → St → result St) s :
  for_each (g <$> l) body s = for_each l (λ x, body (g x)) s.
Proof.
  revert s; induction l as [|x l IH]; intros s; simpl; [done|].
  destruct (body (g x) s); simpl; auto.
Qed.

Lemma for_each_concat {A St} (ls : list (list A)) (body : A → St → result St) s :
  for_each ls (λ l s, for_each l body s) s = for_each (concat ls) body s.
Proof.
  revert s; induction ls as [|l ls IH]; intros s; simpl; [done|].
  rewrite for_each_app. destruct (for_each l body s); simpl; auto.
Qed.

(** Partial correctness: what an invariant gives for a loop that returned. *)
Lemma for_each_inv_Ok {A St} (P : nat → St → Prop) (l : list A) body s s' :
  for_each l body s = Ok s' →
  P 0 s →
  (∀ k x s s1, l !! k = Some x → P k s → body x s = Ok s1 → P (S k) s1) →
  P (length l) s'.
Proof.
  revert P s; induction l as [|x l IH]; intros P s Hrun H0 Hstep; simpl in *.
  - by injection Hrun as <-.
  - destruct (body x s) as [s1|] eqn:Hx; [|done]. simpl in Hrun.
    apply (IH (λ k, P (S k)) s1); [done|by eapply (Hstep 0)|].
    intros k y s2 s3 Hy. by apply (Hstep (S k)).
Qed.

(** [for i in range(len(row))] reading [row[i]] visits the elements of [row]. *)
Lemma for_each_range_getitem {A St} (row : list A) (f : A → St → result St) s :
  for_each (range (len row)) (λ i s, x ← getitem row i; f x s) s = for_each row f s.
Proof.
  unfold len. rewrite range_of_nat, for_each_fmap.
  change (seq 0 (length row)) with (seq (length (@nil A)) (length row)).
  change row with ([] ++ row) at 2. generalize (@nil A) as pre.
  revert s; induction row as [|x row IH]; intros s pre; simpl; [done|].
  rewrite (getitem_of_nat _ _ x) by apply list_lookup_middle, eq_refl. simpl.
  destruct (f x s) as [s1|]; simpl; [|done].
  specialize (IH s1 (pre ++ [x])).
  rewrite length_app, Nat.add_1_r, <-(assoc_L (++)) in IH. exact IH.
Qed.

(** ** The raw histogram *)

Lemma raw_histogram_flat image :
  raw_histogram image = for_each (pixels image) tally (replicate 256 0%Z, 0%Z).
Proof.
  unfold raw_histogram, pixels. rewrite <-for_each_concat.
  apply for_each_ext. intros row st _.
  rewrite <-(for_each_range_getitem row tally). apply for_each_ext. by intros i [h c] _.
Qed.

Lemma setitem_Ok {A} (l : list A) k x :
  (- Z.of_nat (length l) ≤ k < Z.of_nat (length l))%Z →
  setitem l k x = Ok (<[norm (length l) k := x]> l).
Proof. intros Hk. unfold setitem. by rewrite index_Ok. Qed.

Lemma setitem_Ok_inv {A} (l l' : list A) k x :
  setitem l k x = Ok l' → l' = <[norm (length l) k := x]> l.
Proof.
  unfold setitem. destruct (index (length l) k) as [i|] eqn:Hi; [|done].
  apply index_Ok_inv in Hi as (_ & -> & _). by intros [= <-].
Qed.

Lemma np_getitem_fits {A} (a : list A) k :
  (k < 2 ^ 63)%Z → np_getitem a k = getitem a k.
Proof. intros Hk. unfold np_getitem. by rewrite decide_False by lia. Qed.

Lemma np_setitem_fits {A} (a : list A) k x :
  (k < 2 ^ 63)%Z → np_setitem a k x = setitem a k x.
Proof. intros Hk. unfold np_setitem. by rewrite decide_False by lia. Qed.

Lemma np_getitem_Ok_inv {A} (a : list A) k x :
  np_getitem a k = Ok x → getitem a k = Ok x.
Proof. unfold np_getitem. by case_decide. Qed.

Lemma np_setitem_Ok_inv {A} (a a' : list A) k x :
  np_setitem a k x = Ok a' → setitem a k x = Ok a'.
Proof. unfold np_setitem. by case_decide. Qed.

Lemma bin_count_cons b v vs :
  bin_count b (v :: vs)
  = ((if decide (norm 256 v = b) then 1 else 0) + bin_count b vs)%Z.
Proof.
  unfold bin_count. rewrite filter_cons. case_decide; simpl length; lia.
Qed.

Lemma tally_loop xs h c :
  length h = 256 → Forall in_table xs →
  ∃ h', for_each xs tally (h, c) = Ok (h', (c + len xs)%Z) ∧ length h' = 256 ∧
    ∀ b v, h !! b = Some v → h' !! b = Some (v + bin_count b (py_int <$> xs))%Z.
Proof.
  intros Hlen Hxs. revert h c Hlen.
  induction Hxs as [|x xs Hx _ IH]; intros h c Hlen.
  - exists h. unfold len, bin_count. simpl. rewrite Z.add_0_r. split; [done|].
    split; [done|]. intros b v ->. f_equal. lia.
  - unfold in_table in Hx. simpl.
    rewrite np_getitem_fits by lia.
    destruct (getitem_Ok h (py_int x)) as (hv & -> & Hhv); [rewrite Hlen; lia|].
    simpl. rewrite np_setitem_fits by lia.
    rewrite setitem_Ok by (rewrite Hlen; lia). simpl. rewrite Hlen in *.
    destruct (IH (<[norm 256 (py_int x) := (hv + 1)%Z]> h) (c + 1)%Z)
      as (h' & Hrun & Hlen' & Hbins); [by rewrite length_insert|].
    exists h'. split; [rewrite Hrun; do 2 f_equal; unfold len; simpl length; lia|].
    split; [done|]. intros b v Hb. rewrite bin_count_cons.
    case_decide as Hn.
    + subst b. rewrite Hhv in Hb. injection Hb as <-.
      rewrite (Hbins _ (hv + 1)%Z); [f_equal; unfold fmap; lia|].
      apply list_lookup_insert_eq. by eapply lookup_lt_Some.
    + rewrite (Hbins _ v); [done|]. by rewrite list_lookup_insert_ne.
Qed.

(** What [raw_histogram] returns on an image whose truncated intensities
    all index the table: the pixel count, and per entry the number of
    pixels that index it, a negative intensity [v] indexing [256 + v]. *)
Lemma raw_histogram_Ok image :
  Forall in_table (pixels image) →
  ∃ h, raw_histogram image = Ok (h, len (pixels image)) ∧ length h = 256 ∧
    ∀ b, b < 256 → h !! b = Some (bin_count b (py_int <$> pixels image)).
Proof.
  intros Hin. rewrite raw_histogram_flat.
  destruct (tally_loop (pixels image) (replicate 256 0%Z) 0%Z)
    as (h & Hrun & Hlen & Hbins); [done..|].
  exists h. split; [done|]. split; [done|].
  intros b Hb. rewrite (Hbins b 0%Z); [done|]. by apply lookup_replicate_2.
Qed.

(** Every entry of a returned histogram is a count between 0 and [count]. *)
Lemma raw_histogram_bounds image h c :
  raw_histogram image = Ok (h, c) →
  length h = 256 ∧ (0 ≤ c)%Z ∧ Forall (λ v, 0 ≤ v ≤ c)%Z h.
Proof.
  rewrite raw_histogram_flat. intros Hrun.
  apply (for_each_inv_Ok
    (λ _ st, length st.1 = 256 ∧ (0 ≤ st.2)%Z ∧ Forall (λ v, 0 ≤ v ≤ st.2)%Z st.1)
    _ _ _ _ Hrun).
  - cbn [fst snd]. split; [by rewrite length_replicate|]. split; [done|].
    by apply Forall_replicate.
  - intros k x [h0 c0] [h1 c1] _ (Hlen & Hc & Hall) Hstep. cbn [fst snd tally] in *.
    destruct (np_getitem h0 (py_int x)) as [hv|] eqn:Hhv; [|done]. simpl in Hstep.
    destruct (np_setitem h0 (py_int x) (hv + 1)%Z) as [h2|] eqn:Hset; [|done].
    injection Hstep as <- <-. apply np_setitem_Ok_inv, setitem_Ok_inv in Hset as ->.
    apply np_getitem_Ok_inv, getitem_Ok_inv in Hhv as [_ Hhv].
    pose proof (Forall_lookup_1 _ _ _ _ Hall Hhv) as Hv. cbn beta in Hv.
    rewrite length_insert. split; [done|]. split; [lia|].
    apply Forall_insert; [|lia].
    eapply Forall_impl; [exact Hall|]. intros v ?. cbn beta in *. lia.
Qed.

(** ** The bins *)

Lemma Zsum_app l1 l2 : Zsum (l1 ++ l2) = (Zsum l1 + Zsum l2)%Z.
Proof. unfold Zsum. induction l1 as [|x l1 IH]; simpl; lia. Qed.

Lemma range3_pos (stop step : Z) :
  (0 < step)%Z →
  range3 0 stop step
  = Ok ((λ k : nat, (0 + step * Z.of_nat k)%Z)
          <$> seq 0 (Z.to_nat ((stop - 0 + step - 1) `div` step))).
Proof.
  intros Hs. unfold range3. rewrite decide_False, decide_True by lia. done.
Qed.

Lemma bin_inner h (x bin_size : Z) :
  (0 ≤ x)%Z → (0 ≤ bin_size)%Z → (x + bin_size ≤ Z.of_nat (length h))%Z →
  for_each (range bin_size) (λ j var,
    hv ← getitem h (x + j)%Z; Ok (var + hv)%Z) 0%Z
  = Ok (bin_sum h (Z.to_nat x) (Z.to_nat bin_size)).
Proof.
  intros Hx Hbs Hi. rewrite <-(Z2Nat.id bin_size) at 1 by done.
  loop_inv (λ j var, var = bin_sum h (Z.to_nat x) j).
  - done.
  - intros j y var Hy ->. apply range_lookup in Hy as [-> Hj].
    destruct (lookup_lt_is_Some_2 h (Z.to_nat x + j)) as [hv Hhv]; [lia|].
    replace (x + Z.of_nat j)%Z with (Z.of_nat (Z.to_nat x + j)) by lia.
    rewrite (getitem_of_nat _ _ _ Hhv). cbn [mbind result_bind].
    eexists. split; [done|]. unfold bin_sum.
    rewrite (take_S_r _ _ hv) by (by rewrite lookup_drop).
    rewrite Zsum_app. change (Zsum [hv]) with (hv + 0)%Z. lia.
  - rewrite range_length in Hfin. by subst.
Qed.

Lemma bin_histogram_Ok h c (bin_size : Z) :
  bins_fit bin_size → length h = 256 →
  bin_histogram h c bin_size
  = Ok ((λ k, bin_entry h c (Z.to_nat bin_size) (k * Z.to_nat bin_size))
          <$> seq 0 (nbins bin_size)).
Proof.
  intros [Hpos Hfit] Hlen. unfold bin_histogram. rewrite range3_pos by done.
  cbn [mbind result_bind].
  replace (Z.to_nat ((255 - 0 + bin_size - 1) `div` bin_size)) with (nbins bin_size)
    by (unfold nbins; do 2 f_equal; lia).
  set (bs := Z.to_nat bin_size).
  loop_inv (λ k res, res = (λ k, bin_entry h c bs (k * bs)) <$> seq 0 k).
  - done.
  - intros k x res' Hx ->. rewrite list_lookup_fmap in Hx.
    destruct (seq 0 (nbins bin_size) !! k) as [k'|] eqn:Hk; [|done].
    apply lookup_seq in Hk as [-> Hk]. injection Hx as <-. cbn [plus].
    assert ((Z.of_nat k + 1) * bin_size ≤ Z.of_nat (nbins bin_size) * bin_size)%Z
      as Hk' by (apply Z.mul_le_mono_nonneg_r; lia).
    assert (0 ≤ bin_size * Z.of_nat k)%Z as Hk'' by (apply Z.mul_nonneg_nonneg; lia).
    rewrite bin_inner by (rewrite ?Hlen; lia). cbn [mbind result_bind].
    eexists. split; [done|]. rewrite seq_S, fmap_app. cbn [plus fmap list_fmap].
    do 2 f_equal. unfold bs, bin_entry.
    by rewrite Z.add_0_l, Z2Nat.inj_mul, Nat2Z.id, Nat.mul_comm by lia.
  - rewrite length_fmap, length_seq in Hfin. by subst.
Qed.

(** A returned list of bins has one entry per start. *)
Lemma bin_histogram_length h c (bin_size : Z) l :
  (0 < bin_size)%Z → bin_histogram h c bin_size = Ok l → length l = nbins bin_size.
Proof.
  intros Hpos. unfold bin_histogram. rewrite range3_pos by done.
  cbn [mbind result_bind]. intros Hrun.
  apply (for_each_inv_Ok (λ k res, length res = k)) in Hrun.
  - rewrite length_fmap, length_seq in Hrun. rewrite Hrun. unfold nbins.
    do 2 f_equal. lia.
  - done.
  - clear Hrun. intros k x res res' _ Hres Hstep.
    destruct (for_each _ _ _) as [var|]; [|done].
    cbn [mbind result_bind] in Hstep. injection Hstep as <-.
    rewrite length_app. simpl. lia.
Qed.

Lemma inject_Z_pos (z : Z) : (0 < z)%Z → (0 < inject_Z z)%Q.
Proof. intros Hz. unfold Qlt. simpl. lia. Qed.

Lemma inject_Z_nonneg (z : Z) : (0 ≤ z)%Z → (0 <= inject_Z z)%Q.
Proof. intros Hz. unfold Qle. simpl. lia. Qed.

Lemma Qdiv_nonneg (a b : Q) : (0 <= a)%Q → (0 < b)%Q → (0 <= a / b)%Q.
Proof.
  intros Ha Hb. apply Qle_shift_div_l; [done|]. by rewrite Qmult_0_l.
Qed.

Lemma Qeq_bool_pos (b : Q) : (0 < b)%Q → Qeq_bool b 0 = false.
Proof.
  intros Hb. destruct (Qeq_bool b 0) eqn:Heq; [|done].
  apply Qeq_bool_eq in Heq. rewrite Heq in Hb. by apply Qlt_irrefl in Hb.
Qed.

(** Every entry of a returned PMF is a [pmf_entry]. *)
Lemma bin_histogram_entries h c (bin_size : Z) l :
  (0 ≤ c)%Z → Forall (λ v, 0 ≤ v ≤ c)%Z h →
  bin_histogram h c bin_size = Ok l → Forall pmf_entry l.
Proof.
  intros Hc Hall. unfold bin_histogram.
  destruct (range3 0 255 bin_size) as [starts|]; [|done]. cbn [mbind result_bind].
  intros Hrun.
  apply (for_each_inv_Ok (λ _ res, Forall pmf_entry res) _ _ _ _ Hrun); [done|].
  clear Hrun. intros k x res res' _ Hres Hstep.
  destruct (for_each _ _ _) as [var|] eqn:Hvar; [|done].
  cbn [mbind result_bind] in Hstep. injection Hstep as <-.
  apply Forall_app. split; [done|]. apply Forall_singleton.
  apply (for_each_inv_Ok (λ _ var, 0 ≤ var ∧ (c = 0 → var = 0))%Z) in Hvar.
  - destruct Hvar as [Hvar Hzero]. unfold pmf_entry, np_div.
    destruct (decide (c = 0%Z)) as [->|Hne].
    + left. by rewrite Hzero.
    + right. rewrite Qeq_bool_pos by (apply inject_Z_pos; lia).
      eexists. split; [done|].
      apply Qdiv_nonneg; [by apply inject_Z_nonneg|apply inject_Z_pos; lia].
  - done.
  - intros j y v v' _ [Hv Hz] Hbody.
    destruct (getitem h (x + y)%Z) as [hv|] eqn:Hhv; [|done].
    cbn [mbind result_bind] in Hbody. injection Hbody as <-.
    apply getitem_Ok_inv in Hhv as [_ Hhv].
    pose proof (Forall_lookup_1 _ _ _ _ Hall Hhv) as Hb. cbn beta in Hb. lia.
Qed.

(** ** Results on [marginal_pmf] *)

Lemma marginal_pmf_Ok image (bin_size id0 : Z) :
  Forall in_table (pixels image) → bins_fit bin_size →
  ∃ h, raw_histogram image = Ok (h, len (pixels image)) ∧ length h = 256 ∧
    (∀ b, b < 256 → h !! b = Some (bin_count b (py_int <$> pixels image))) ∧
    marginal_pmf image bin_size id0
    = Ok ((λ k, bin_entry h (len (pixels image)) (Z.to_nat bin_size)
                  (k * Z.to_nat bin_size)) <$> seq 0 (nbins bin_size)).
Proof.
  intros Hin Hfit. destruct (raw_histogram_Ok image Hin) as (h & Hraw & Hlen & Hbins).
  exists h. repeat split; try done.
  unfold marginal_pmf. rewrite Hraw. cbn [mbind result_bind].
  by apply bin_histogram_Ok.
Qed.

Lemma marginal_pmf_entries image (bin_size id0 : Z) l :
  marginal_pmf image bin_size id0 = Ok l → Forall pmf_entry l.
Proof.
  unfold marginal_pmf. destruct (raw_histogram image) as [[h c]|] eqn:Hraw; [|done].
  cbn [mbind result_bind]. apply raw_histogram_bounds in Hraw as (_ & Hc & Hall).
  by apply bin_histogram_entries.
Qed.

Lemma marginal_pmf_length image (bin_size id0 : Z) l :
  (0 < bin_size)%Z → marginal_pmf image bin_size id0 = Ok l →
  length l = nbins bin_size.
Proof.
  intros Hpos. unfold marginal_pmf.
  destruct (raw_histogram image) as [[h c]|] eqn:Hraw; [|done].
  cbn [mbind result_bind]. by apply bin_histogram_length.
Qed.

(** ** Filling an array cell by cell *)

Lemma bind_assoc {A B C} (m : result A) (f : A → result B) (g : B → result C) :
  (m ≫= f) ≫= g = m ≫= (λ x, f x ≫= g).
Proof. by destruct m. Qed.

Lemma fill_loop {A} (a0 : ndarray A) (F : Z → Z → result A) (g : nat → nat → A)
    (h w : nat) :
  wf a0 → nrows a0 = h → ncols a0 = w →
  (∀ i j, i < h → j < w → F (Z.of_nat i) (Z.of_nat j) = Ok (g i j)) →
  ∃ a, for_each (range (Z.of_nat h)) (λ i a,
         for_each (range (Z.of_nat w)) (λ j a,
           v ← F i j; setcell a i j v) a) a0 = Ok a ∧
       filled g h w h 0 a.
Proof.
  intros Hwf <- <- HF.
  loop_inv (λ i, filled g (nrows a0) (ncols a0) i 0);
    [| |rewrite range_length in Hfin; by eauto].
  { repeat split; try done. intros i' j [?|[_ ?]]; lia. }
  intros i x a Hx Ha. apply range_lookup in Hx as [-> Hi].
  loop_inv (λ j0, filled g (nrows a0) (ncols a0) i j0); [done| |].
  - intros j y s Hy (Hwfs & Hnr & Hnc & Hcells).
    apply range_lookup in Hy as [-> Hj]. rewrite HF by done.
    cbn [mbind result_bind].
    destruct (setcell_of_nat s i j (g i j)) as (r & Hr & ->); [done|lia..|].
    eexists. split; [done|].
    split; [by eapply wf_update|].
    split; [unfold nrows in *; cbn [rows]; by rewrite length_insert|].
    split; [done|]. intros i' j' Hpos Hi' Hj'.
    rewrite cell_update by (done || (rewrite (wf_row s i r); [lia|done..])).
    case_decide as Hij; [by destruct Hij as [<- <-]|].
    apply Hcells; [|done..]. destruct Hpos as [?|[-> ?]]; [by left|].
    right. split; [done|]. destruct (decide (j' = j)) as [->|]; [tauto|lia].
  - exists res. split; [exact Hrun|].
    rewrite range_length in Hfin. destruct Hfin as (Hwfs & Hnr & Hnc & Hcells).
    repeat split; try done. intros i' j Hpos Hi' Hj. apply Hcells; [|done..].
    destruct Hpos as [?|[_ ?]]; [|lia].
    destruct (decide (i' = i)) as [->|]; [by right|left; lia].
Qed.

(** Two rectangular arrays with the same cells are the same array. *)
Lemma ndarray_eq {A} (a b : ndarray A) :
  wf a → wf b → nrows a = nrows b → ncols a = ncols b →
  (∀ i j, i < nrows a → j < ncols a → cell a i j = cell b i j) → a = b.
Proof.
  destruct a as [wa ra], b as [wb rb]. unfold wf, nrows, cell. cbn [ncols rows].
  intros Ha Hb Hr <- Hcells. f_equal. apply list_eq_same_length with (length ra);
    [done..|].
  intros i r1 r2 Hi H1 H2. specialize (Hcells i).
  rewrite H1, H2 in Hcells. cbn [mbind option_bind] in Hcells.
  pose proof (Forall_lookup_1 _ _ _ _ Ha H1) as Hl1.
  pose proof (Forall_lookup_1 _ _ _ _ Hb H2) as Hl2. cbn beta in *.
  apply list_eq_same_length with wa; [done..|].
  intros j v1 v2 Hj Hv1 Hv2. specialize (Hcells j Hi Hj). congruence.
Qed.

Lemma tabulate_cell {A} (g : nat → nat → A) h w i j :
  i < h → j < w → cell (tabulate g h w) i j = Some (g i j).
Proof.
  intros Hi Hj. unfold cell, tabulate. cbn [rows].
  rewrite list_lookup_fmap, lookup_seq_lt by done. cbn.
  by rewrite list_lookup_fmap, lookup_seq_lt.
Qed.

Lemma tabulate_wf {A} (g : nat → nat → A) h w : wf (tabulate g h w).
Proof.
  unfold wf, tabulate. cbn [rows ncols]. apply Forall_fmap, Forall_forall.
  intros i _. cbn. by rewrite length_fmap, length_seq.
Qed.

Lemma filled_tabulate {A} (g : nat → nat → A) h w (a : ndarray A) :
  filled g h w h 0 a → a = tabulate g h w.
Proof.
  intros (Hwf & Hnr & Hnc & Hcells).
  apply ndarray_eq; [done|apply tabulate_wf|..].
  - unfold nrows, tabulate in *. cbn [rows]. by rewrite length_fmap, length_seq.
  - done.
  - intros i j Hi Hj. rewrite Hcells, tabulate_cell by lia. done.
Qed.

(** ** The joint PMF *)

Lemma getitem_total {A} `{!Inhabited A} (l : list A) (i : nat) :
  i < length l → getitem l (Z.of_nat i) = Ok (l !!! i).
Proof.
  intros Hi. apply getitem_of_nat. by apply list_lookup_lookup_total_lt.
Qed.

Lemma np_zeros_wf nrow ncol : wf (np_zeros nrow ncol).
Proof.
  unfold wf, np_zeros. cbn [rows ncols]. apply Forall_replicate.
  by rewrite length_replicate.
Qed.

Lemma joint_pmf_eq (x_pmf y_pmf : list (ext Q)) :
  joint_pmf x_pmf y_pmf
  = Ok (amap (λ v, np_div v (np_sum (joint_raw x_pmf y_pmf))) (joint_raw x_pmf y_pmf)).
Proof.
  unfold joint_pmf.
  destruct (fill_loop (np_zeros (length x_pmf) (length y_pmf))
              (λ i j, xi ← getitem x_pmf i; yj ← getitem y_pmf j; Ok (np_add xi yj))
              (λ i j, np_add (x_pmf !!! i) (y_pmf !!! j))
              (length x_pmf) (length y_pmf))
    as (a & Hrun & Hfill).
  - apply np_zeros_wf.
  - unfold nrows, np_zeros. cbn [rows]. by rewrite length_replicate.
  - done.
  - intros i j Hi Hj. by rewrite !getitem_total.
  - apply filled_tabulate in Hfill. fold (joint_raw x_pmf y_pmf) in Hfill. subst a.
    erewrite for_each_ext; [rewrite Hrun; done|].
    intros i a _. apply for_each_ext. intros j a' _.
    rewrite !bind_assoc. destruct (getitem x_pmf i); [|done]. cbn [mbind result_bind].
    rewrite bind_assoc. by destruct (getitem y_pmf j).
Qed.

Lemma joint_raw_cell x y i j xi yj :
  x !! i = Some xi → y !! j = Some yj →
  cell (joint_raw x y) i j = Some (np_add xi yj).
Proof.
  intros Hx Hy. unfold joint_raw.
  rewrite tabulate_cell by (by eapply lookup_lt_Some).
  by rewrite (list_lookup_total_correct _ _ _ Hx), (list_lookup_total_correct _ _ _ Hy).
Qed.

Lemma joint_pmf_cells x y :
  ∃ pxy, joint_pmf x y = Ok pxy ∧ wf pxy ∧
    nrows pxy = length x ∧ ncols pxy = length y ∧
    ∀ i j xi yj, x !! i = Some xi → y !! j = Some yj →
      cell pxy i j = Some (np_div (np_add xi yj) (np_sum (joint_raw x y))).
Proof.
  eexists. split; [apply joint_pmf_eq|].
  split; [apply amap_wf, tabulate_wf|].
  split; [unfold nrows, amap, joint_raw, tabulate; cbn [rows];
          by rewrite !length_fmap, length_seq|].
  split; [done|]. intros i j xi yj Hx Hy.
  by rewrite amap_cell, (joint_raw_cell _ _ _ _ _ _ Hx Hy).
Qed.

(** ** The joint PMF of two finite marginals *)

Lemma fmap_seq_total {A B} `{!Inhabited A} (g : A → B) (l : list A) :
  (λ i, g (l !!! i)) <$> seq 0 (length l) = g <$> l.
Proof.
  apply list_eq. intros i. rewrite !list_lookup_fmap.
  destruct (decide (i < length l)) as [Hi|Hi].
  - rewrite lookup_seq_lt by done. cbn.
    by rewrite (list_lookup_lookup_total_lt l i Hi).
  - rewrite lookup_seq_ge, lookup_ge_None_2 by lia. done.
Qed.

Lemma joint_raw_rows x y : rows (joint_raw x y) = (λ xi, np_add xi <$> y) <$> x.
Proof.
  unfold joint_raw, tabulate. cbn [rows].
  rewrite <-(fmap_seq_total (λ xi, np_add xi <$> y) x).
  apply list_fmap_ext. intros _ i _. cbn beta.
  apply (fmap_seq_total (np_add (x !!! i)) y).
Qed.

Lemma joint_raw_Fin xs ys :
  concat (rows (joint_raw (Fin <$> xs) (Fin <$> ys))) = Fin <$> pair_sums xs ys.
Proof.
  rewrite joint_raw_rows. unfold pair_sums.
  induction xs as [|a xs IH]; [done|].
  cbn [fmap list_fmap concat] in *. rewrite fmap_app. f_equal; [|exact IH].
  clear IH. induction ys as [|b ys IH]; [done|].
  cbn [fmap list_fmap] in *. by f_equal.
Qed.

Lemma concat_amap {A B} (f : A → B) (a : ndarray A) :
  concat (rows (amap f a)) = f <$> concat (rows a).
Proof.
  unfold amap. cbn [rows]. induction (rows a) as [|r rs IH]; [done|].
  cbn [fmap list_fmap concat] in *. by rewrite fmap_app, IH.
Qed.

Lemma foldl_np_add_Fin a qs :
  foldl np_add (Fin a) (Fin <$> qs) = Fin (foldl Qplus a qs).
Proof. revert a. induction qs as [|q qs IH]; intros a; [done|]. apply IH. Qed.

Lemma foldl_Qplus a qs : (foldl Qplus a qs == a + Qsum qs)%Q.
Proof.
  revert a. induction qs as [|q qs IH]; intros a; cbn [foldl Qsum foldr].
  - ring.
  - rewrite IH. unfold Qsum. ring.
Qed.

Lemma Qsum_nonneg l : Forall (λ q, 0 <= q)%Q l → (0 <= Qsum l)%Q.
Proof.
  induction 1 as [|q l Hq _ IH]; cbn [Qsum foldr]; [apply Qle_refl|].
  cbn beta in Hq. fold (Qsum l). lra.
Qed.

Lemma Qsum_pos l :
  Forall (λ q, 0 <= q)%Q l → Exists (λ q, 0 < q)%Q l → (0 < Qsum l)%Q.
Proof.
  intros Hall Hex. induction Hex as [q l Hq|q l _ IH];
    apply Forall_cons in Hall as [Hq0 Hall]; cbn [Qsum foldr]; fold (Qsum l).
  - pose proof (Qsum_nonneg l Hall). lra.
  - specialize (IH Hall). lra.
Qed.

Lemma Qsum_div t l : ¬ (t == 0)%Q → (Qsum ((λ q, q / t)%Q <$> l) == Qsum l / t)%Q.
Proof.
  intros Ht. induction l as [|q l IH]; cbn [fmap list_fmap Qsum foldr].
  - by field.
  - fold (Qsum l). fold (Qsum ((λ q, q / t)%Q <$> l)). rewrite IH. by field.
Qed.

Lemma pair_sums_nonneg xs ys :
  Forall (λ q, 0 <= q)%Q xs → Forall (λ q, 0 <= q)%Q ys →
  Forall (λ q, 0 <= q)%Q (pair_sums xs ys).
Proof.
  intros Hx Hy. unfold pair_sums. apply Forall_concat, Forall_fmap.
  eapply Forall_impl; [exact Hx|]. intros a Ha. cbn in *. apply Forall_fmap.
  eapply Forall_impl; [exact Hy|]. intros b Hb. cbn in *. lra.
Qed.

Lemma pair_sums_pos xs ys :
  Forall (λ q, 0 <= q)%Q xs → Forall (λ q, 0 <= q)%Q ys →
  xs ≠ [] → ys ≠ [] →
  Exists (λ q, 0 < q)%Q xs ∨ Exists (λ q, 0 < q)%Q ys →
  Exists (λ q, 0 < q)%Q (pair_sums xs ys).
Proof.
  intros Hx Hy Hxs Hys Hpos. unfold pair_sums.
  apply Exists_concat, Exists_fmap, Exists_exists.
  destruct Hpos as [Hex|Hex]; apply Exists_exists in Hex as (q & Hin & Hq).
  - exists q. split; [done|]. cbn. apply Exists_fmap.
    destruct ys as [|b ys]; [done|]. apply Forall_cons in Hy as [Hb _].
    apply Exists_cons_hd. cbn. lra.
  - destruct xs as [|a xs]; [done|]. apply Forall_cons in Hx as [Ha _].
    exists a. split; [left|]. cbn. apply Exists_fmap, Exists_exists.
    exists q. split; [done|]. cbn. lra.
Qed.

(** C5: for two non-empty marginal PMFs with non-negative entries, one of
    them positive, [joint_pmf] returns a [len(x_pmf)] by [len(y_pmf)]
    grid whose cell [(i, j)] is [(x_pmf[i] + y_pmf[j]) / total] for the
    one positive [total] (the sum of all the [x_pmf[i] + y_pmf[j]]), and
    whose cells sum to 1. *)
Theorem joint_pmf_additive_normalized (xs ys : list Q) :
  xs ≠ [] → ys ≠ [] →
  Forall (λ q, 0 <= q)%Q xs → Forall (λ q, 0 <= q)%Q ys →
  Exists (λ q, 0 < q)%Q xs ∨ Exists (λ q, 0 < q)%Q ys →
  ∃ pxy total one,
    joint_pmf (Fin <$> xs) (Fin <$> ys) = Ok pxy ∧
    wf pxy ∧ nrows pxy = length xs ∧ ncols pxy = length ys ∧
    (0 < total)%Q ∧ (total == Qsum (pair_sums xs ys))%Q ∧
    (∀ i j xi yj, xs !! i = Some xi → ys !! j = Some yj →
       cell pxy i j = Some (Fin ((xi + yj) / total)%Q)) ∧
    np_sum pxy = Fin one ∧ (one == 1)%Q.
Proof.
  intros Hxs Hys Hx Hy Hpos.
  destruct (joint_pmf_cells (Fin <$> xs) (Fin <$> ys))
    as (pxy & Hrun & Hwf & Hnr & Hnc & Hcells).
  set (total := foldl Qplus 0%Q (pair_sums xs ys)).
  assert (np_sum (joint_raw (Fin <$> xs) (Fin <$> ys)) = Fin total) as Htotal.
  { unfold np_sum. rewrite joint_raw_Fin. apply foldl_np_add_Fin. }
  assert (total == Qsum (pair_sums xs ys))%Q as Hsum.
  { unfold total. rewrite foldl_Qplus. ring. }
  assert (0 < total)%Q as Htpos.
  { rewrite Hsum. apply Qsum_pos; [by apply pair_sums_nonneg|by apply pair_sums_pos]. }
  assert (¬ (total == 0)%Q) as Hne by lra.
  exists pxy, total, (foldl Qplus 0%Q ((λ q, q / total)%Q <$> pair_sums xs ys)).
  rewrite !length_fmap in *. repeat split; try done.
  - intros i j xi yj Hi Hj.
    rewrite (Hcells i j (Fin xi) (Fin yj)) by (by rewrite list_lookup_fmap, ?Hi, ?Hj).
    rewrite Htotal. cbn [np_add ext_add np_div]. by rewrite Qeq_bool_pos.
  - rewrite joint_pmf_eq in Hrun. injection Hrun as <-.
    unfold np_sum at 1. rewrite concat_amap, Htotal, joint_raw_Fin.
    rewrite <-list_fmap_compose.
    rewrite (list_fmap_ext _ (Fin ∘ (λ q, q / total)%Q) (pair_sums xs ys)).
    + rewrite list_fmap_compose. apply foldl_np_add_Fin.
    + intros _ q _. cbn. by rewrite Qeq_bool_pos.
  - rewrite foldl_Qplus, Qsum_div, <-Hsum by done. by field.
Qed.

Lemma joint_pmf_additive_normalized_witness :
  let xs := [1 # 2; 1 # 2]%Q in
  let ys := [1; 0; 0]%Q in
  xs ≠ [] ∧ ys ≠ [] ∧
  Forall (λ q, 0 <= q)%Q xs ∧ Forall (λ q, 0 <= q)%Q ys ∧
  (Exists (λ q, 0 < q)%Q xs ∨ Exists (λ q, 0 < q)%Q ys) ∧
  ∃ pxy total one,
    joint_pmf (Fin <$> xs) (Fin <$> ys) = Ok pxy ∧
    wf pxy ∧ nrows pxy = length xs ∧ ncols pxy = length ys ∧
    (0 < total)%Q ∧ (total == Qsum (pair_sums xs ys))%Q ∧
    (∀ i j xi yj, xs !! i = Some xi → ys !! j = Some yj →
       cell pxy i j = Some (Fin ((xi + yj) / total)%Q)) ∧
    np_sum pxy = Fin one ∧ (one == 1)%Q.
Proof.
  intros xs ys.
  assert (xs ≠ []) as H1 by done.
  assert (ys ≠ []) as H2 by done.
  assert (Forall (λ q, 0 <= q)%Q xs) as H3 by (repeat constructor; lra).
  assert (Forall (λ q, 0 <= q)%Q ys) as H4 by (repeat constructor; lra).
  assert (Exists (λ q, 0 < q)%Q xs ∨ Exists (λ q, 0 < q)%Q ys) as H5
    by (left; left; lra).
  exact (conj H1 (conj H2 (conj H3 (conj H4 (conj H5
           (joint_pmf_additive_normalized xs ys H1 H2 H3 H4 H5)))))).
Defined.

(** ** The mutual-information sum *)

Lemma Qeq_bool_false_pos (q : Q) : (0 <= q)%Q → Qeq_bool q 0 = false → (0 < q)%Q.
Proof.
  intros Hq Hne. apply Qeq_bool_neq in Hne.
  apply Qle_lteq in Hq as [Hq|Hq]; [done|]. by symmetry in Hq.
Qed.

Lemma Qcompare_nonneg (q : Q) : (0 <= q)%Q → (q ?= 0)%Q ≠ Lt.
Proof. intros Hq Hlt. apply Qlt_alt in Hlt. lra. Qed.

Lemma Qle_bool_pos_false (q : Q) : (0 < q)%Q → Qle_bool q 0 = false.
Proof.
  intros Hq. destruct (Qle_bool q 0) eqn:Hle; [|done].
  apply Qle_bool_iff in Hle. lra.
Qed.

(** One term of the sum: the logarithm is defined, and the term is a
    number, +inf or nan; it is not a number when a marginal is zero. *)
Lemma mi_term_Ok (xi yj total : ext Q) :
  pmf_entry xi → pmf_entry yj → pmf_entry total →
  ∃ l, math_log2 (np_div (np_div (np_add xi yj) total) (np_mul xi yj)) = Ok l ∧
       times_log (np_div (np_add xi yj) total) l ≠ NInf ∧
       (zero_mass xi ∨ zero_mass yj →
        is_finite (times_log (np_div (np_add xi yj) total) l) = false).
Proof.
  intros [->|(a & -> & Ha)] [->|(b & -> & Hb)] [->|(s & -> & Hs)];
    try (exists NaN; cbn; by repeat split).
  assert (0 <= a * b)%Q as Hab by (by apply Qmult_le_0_compat).
  cbn [np_add ext_add np_mul np_div].
  destruct (Qeq_bool s 0) eqn:Hs0.
  - destruct (a + b ?= 0)%Q eqn:Hsum; cbn [ext_signed ext_opp np_div].
    + exists NaN. by repeat split.
    + destruct (Qcompare_nonneg (a + b)); [lra|done].
    + apply Qle_bool_iff in Hab. rewrite Hab. exists PInf. by repeat split.
  - apply Qeq_bool_false_pos in Hs0; [|done].
    assert (0 <= (a + b) / s)%Q as Hp by (apply Qdiv_nonneg; [lra|done]).
    cbn [np_div]. destruct (Qeq_bool (a * b) 0) eqn:Hab0.
    + destruct ((a + b) / s ?= 0)%Q eqn:Hp0; cbn [ext_signed ext_opp math_log2].
      * exists NaN. by repeat split.
      * by destruct (Qcompare_nonneg _ Hp).
      * exists PInf. cbn [times_log ext_signed]. rewrite Hp0. by repeat split.
    + apply Qeq_bool_false_pos in Hab0 as Hpos; [|done].
      assert (0 < a + b)%Q as Hsum.
      { apply Qle_lteq in Ha as [Ha|Ha]; [lra|].
        rewrite <-Ha, Qmult_0_l in Hpos. lra. }
      assert (0 < (a + b) / s / (a * b))%Q as Hvar2.
      { apply Qlt_shift_div_l; [done|]. rewrite Qmult_0_l.
        apply Qlt_shift_div_l; [done|]. by rewrite Qmult_0_l. }
      cbn [math_log2]. rewrite Qle_bool_pos_false by done.
      eexists. split; [done|]. cbn [times_log]. split; [done|].
      apply Qeq_bool_neq in Hab0.
      intros [(q & [= <-] & Hq)|(q & [= <-] & Hq)]; destruct Hab0.
      * by rewrite Hq, Qmult_0_l.
      * by rewrite Hq, Qmult_0_r.
Qed.

Lemma score_add_class (acc t : ext R) :
  acc ≠ NInf → t ≠ NInf →
  score_add acc t ≠ NInf ∧
  (is_finite acc = false ∨ is_finite t = false → is_finite (score_add acc t) = false).
Proof.
  destruct acc, t; cbn; intros ? ?; split; try done; intros [?|?]; done.
Qed.

Lemma getcell_of_nat {A} (a : ndarray A) (i j : nat) v :
  cell a i j = Some v → getcell a (Z.of_nat i) (Z.of_nat j) = Ok v.
Proof.
  unfold cell, getcell. destruct (rows a !! i) as [r|] eqn:Hr; [|done].
  cbn [mbind option_bind]. intros Hv.
  rewrite (getitem_of_nat _ _ _ Hr). cbn [mbind result_bind].
  by apply getitem_of_nat.
Qed.

Lemma mi_loops (px py : list (ext Q)) (pxy : ndarray (ext Q)) (total : ext Q) :
  Forall pmf_entry px → Forall pmf_entry py → pmf_entry total →
  (∀ i j xi yj, px !! i = Some xi → py !! j = Some yj →
     cell pxy i j = Some (np_div (np_add xi yj) total)) →
  ∃ mi,
    for_each (range (len px)) (λ i mutual_information,
      for_each (range (len py)) (λ j mutual_information,
        xi ← getitem px i;
        yj ← getitem py j;
        let var1 := np_mul xi yj in
        pij ← getcell pxy i j;
        let var2 := np_div pij var1 in
        l ← math_log2 var2;
        let partial := times_log pij l in
        Ok (score_add mutual_information partial)) mutual_information)
      (Fin 0%R) = Ok mi ∧
    mi ≠ NInf ∧ (zero_before px py (length px) 0 → is_finite mi = false).
Proof.
  intros Hpx Hpy Htotal Hcells. unfold len.
  loop_inv (λ i (acc : ext R),
    acc ≠ NInf ∧ (zero_before px py i 0 → is_finite acc = false)).
  - split; [done|]. intros (i' & j' & _ & _ & [?|[_ ?]] & _); lia.
  - intros i x acc Hx [Hacc Hbad]. apply range_lookup in Hx as [-> Hi].
    destruct (lookup_lt_is_Some_2 px i Hi) as [xi Hxi].
    loop_inv (λ j (acc' : ext R),
      acc' ≠ NInf ∧ (zero_before px py i j → is_finite acc' = false)).
    + done.
    + intros j y acc' Hy [Hacc' Hbad']. apply range_lookup in Hy as [-> Hj].
      destruct (lookup_lt_is_Some_2 py j Hj) as [yj Hyj].
      rewrite (getitem_of_nat _ _ _ Hxi). cbn [mbind result_bind].
      rewrite (getitem_of_nat _ _ _ Hyj). cbn [mbind result_bind].
      rewrite (getcell_of_nat _ _ _ _ (Hcells _ _ _ _ Hxi Hyj)).
      cbn [mbind result_bind].
      destruct (mi_term_Ok xi yj total) as (l & -> & Hl & Hzero);
        [exact (Forall_lookup_1 _ _ _ _ Hpx Hxi)
        |exact (Forall_lookup_1 _ _ _ _ Hpy Hyj)|done|].
      cbn [mbind result_bind]. eexists. split; [done|].
      destruct (score_add_class acc' _ Hacc' Hl) as [Hne Hfin]. split; [done|].
      intros (i' & j' & xi' & yj' & Hpos & Hxi' & Hyj' & Hz). apply Hfin.
      destruct (decide (i' = i ∧ j' = j)) as [[-> ->]|Hne'].
      * right. apply Hzero. congruence.
      * left. apply Hbad'. exists i', j', xi', yj'. repeat split; try done.
        destruct Hpos as [?|[-> ?]]; [by left|right]. split; [done|].
        destruct (decide (j' = j)) as [->|]; [tauto|lia].
    + exists res. split; [exact Hrun|]. rewrite range_length in Hfin.
      destruct Hfin as [Hne Hfin]. split; [done|].
      intros (i' & j' & xi' & yj' & Hpos & Hxi' & Hyj' & Hz). apply Hfin.
      exists i', j', xi', yj'. repeat split; try done.
      destruct Hpos as [Hlt|[_ ?]]; [|lia].
      destruct (decide (i' = i)) as [->|]; [right|left; lia].
      split; [done|]. by eapply lookup_lt_Some.
  - exists res. split; [exact Hrun|]. by rewrite range_length in Hfin.
Qed.

Lemma pmf_entry_add (a b : ext Q) :
  pmf_entry a → pmf_entry b → pmf_entry (np_add a b).
Proof.
  intros [->|(x & -> & Hx)] [->|(y & -> & Hy)]; try (by left).
  right. exists (x + y)%Q. split; [done|lra].
Qed.

Lemma pmf_entry_sum (x y : list (ext Q)) :
  Forall pmf_entry x → Forall pmf_entry y → pmf_entry (np_sum (joint_raw x y)).
Proof.
  intros Hx Hy. unfold np_sum. rewrite joint_raw_rows.
  assert (Forall pmf_entry (concat ((λ xi, np_add xi <$> y) <$> x))) as Hall.
  { apply Forall_concat, Forall_fmap. eapply Forall_impl; [exact Hx|].
    intros xi Hxi. cbn. apply Forall_fmap. eapply Forall_impl; [exact Hy|].
    intros yj Hyj. cbn. by apply pmf_entry_add. }
  assert (pmf_entry (Fin 0%Q)) as H0 by (right; exists 0%Q; split; [done|lra]).
  revert H0. generalize (Fin 0%Q).
  induction Hall as [|v l Hv _ IH]; intros acc Hacc; [done|].
  cbn [foldl]. apply IH. by apply pmf_entry_add.
Qed.

(** Two PMFs computed with one bin size have the same number of bins. *)
Lemma bin_histogram_starts h c (bin_size : Z) l :
  bin_histogram h c bin_size = Ok l →
  ∃ starts, range3 0 255 bin_size = Ok starts ∧ length l = length starts.
Proof.
  unfold bin_histogram.
  destruct (range3 0 255 bin_size) as [starts|]; [|done]. cbn [mbind result_bind].
  intros Hrun. exists starts. split; [done|].
  apply (for_each_inv_Ok (λ k (res : list (ext Q)), length res = k) _ _ _ _ Hrun);
    [done|].
  clear Hrun. intros k x res res' _ Hres Hstep.
  destruct (for_each _ _ _) as [var|]; [|done].
  cbn [mbind result_bind] in Hstep. injection Hstep as <-.
  rewrite length_app. cbn. lia.
Qed.

Lemma marginal_pmf_same_length image1 image2 (bin_size id1 id2 : Z) px py :
  marginal_pmf image1 bin_size id1 = Ok px →
  marginal_pmf image2 bin_size id2 = Ok py →
  length px = length py.
Proof.
  unfold marginal_pmf.
  destruct (raw_histogram image1) as [[h1 c1]|]; [|done].
  destruct (raw_histogram image2) as [[h2 c2]|]; [|done].
  cbn [mbind result_bind]. intros H1 H2.
  apply bin_histogram_starts in H1 as (s1 & Hs1 & ->).
  apply bin_histogram_starts in H2 as (s2 & Hs2 & ->). congruence.
Qed.

(** [mutual_information] never fails once both marginals are computed,
    and its score is not a number when a bin has no mass. *)
Lemma mutual_information_Ok image1 image2 (id0 bin_size : Z) px py :
  marginal_pmf image1 bin_size id0 = Ok px →
  marginal_pmf image2 bin_size (id0 + 100)%Z = Ok py →
  ∃ mi, mutual_information image1 image2 id0 bin_size = Ok mi ∧ mi ≠ NInf ∧
    (Exists zero_mass px ∨ Exists zero_mass py → is_finite mi = false).
Proof.
  intros Hpx Hpy. unfold mutual_information. rewrite Hpx, Hpy.
  cbn [mbind result_bind].
  destruct (joint_pmf_cells px py) as (pxy & -> & _ & _ & _ & Hcells).
  cbn [mbind result_bind].
  pose proof (marginal_pmf_entries _ _ _ _ Hpx) as Hex.
  pose proof (marginal_pmf_entries _ _ _ _ Hpy) as Hey.
  destruct (mi_loops px py pxy (np_sum (joint_raw px py)) Hex Hey
              (pmf_entry_sum _ _ Hex Hey) Hcells) as (mi & Hrun & Hne & Hzero).
  exists mi. split; [exact Hrun|]. split; [done|].
  pose proof (marginal_pmf_same_length _ _ _ _ _ _ _ Hpx Hpy) as Hlen.
  intros Hz. apply Hzero.
  destruct Hz as [Hz|Hz]; apply Exists_exists in Hz as (v & Hin & Hv);
    apply list_elem_of_lookup in Hin as [k Hk]; pose proof (lookup_lt_Some _ _ _ Hk).
  - destruct (lookup_lt_is_Some_2 py 0) as [yj Hyj]; [lia|].
    exists k, 0, v, yj. repeat split; try done; [|by left]. by left.
  - destruct (lookup_lt_is_Some_2 px 0) as [xi Hxi]; [lia|].
    exists 0, k, xi, v. repeat split; try done; [|by right]. left. lia.
Qed.

(** ** Results on [mutual_information] *)

(** C6, as stated, fails: with two bins of 128 intensities the second
    bin of [dark_1x1] has no mass, and with one bin of 255 intensities
    the only bin of [bright_1x1] has none; [mutual_information] raises
    nothing and returns nan, respectively +inf. *)
Lemma mutual_information_returns_nan :
  marginal_pmf dark_1x1 128 0 = Ok [Fin 1%Q; Fin 0%Q] ∧
  mutual_information dark_1x1 dark_1x1 0 128 = Ok NaN ∧
  marginal_pmf bright_1x1 255 0 = Ok [Fin 0%Q] ∧
  mutual_information bright_1x1 dark_1x1 0 255 = Ok PInf.
Proof. repeat split; vm_compute; reflexivity. Qed.

(** C6, amended: whenever both marginals are computed and a bin of
    either has no mass, [mutual_information] raises nothing; it returns a
    score that is not a number (+inf or nan). *)
Theorem mutual_information_zero_mass image1 image2 (id0 bin_size : Z) px py :
  marginal_pmf image1 bin_size id0 = Ok px →
  marginal_pmf image2 bin_size (id0 + 100)%Z = Ok py →
  Exists zero_mass px ∨ Exists zero_mass py →
  ∃ mi, mutual_information image1 image2 id0 bin_size = Ok mi ∧
        (mi = PInf ∨ mi = NaN).
Proof.
  intros Hpx Hpy Hz.
  destruct (mutual_information_Ok _ _ _ _ _ _ Hpx Hpy) as (mi & Hrun & Hne & Hfin).
  exists mi. split; [done|]. specialize (Hfin Hz).
  destruct mi; try done; auto.
Qed.

Lemma mutual_information_zero_mass_witness :
  marginal_pmf dark_1x1 128 0 = Ok [Fin 1%Q; Fin 0%Q] ∧
  marginal_pmf dark_1x1 128 (0 + 100)%Z = Ok [Fin 1%Q; Fin 0%Q] ∧
  (Exists zero_mass [Fin 1%Q; Fin 0%Q] ∨ Exists zero_mass [Fin 1%Q; Fin 0%Q]) ∧
  ∃ mi, mutual_information dark_1x1 dark_1x1 0 128 = Ok mi ∧
        (mi = PInf ∨ mi = NaN).
Proof.
  assert (marginal_pmf dark_1x1 128 0 = Ok [Fin 1%Q; Fin 0%Q]) as H1
    by (vm_compute; reflexivity).
  assert (marginal_pmf dark_1x1 128 (0 + 100)%Z = Ok [Fin 1%Q; Fin 0%Q]) as H2
    by (vm_compute; reflexivity).
  assert (Exists zero_mass [Fin 1%Q; Fin 0%Q] ∨ Exists zero_mass [Fin 1%Q; Fin 0%Q])
    as H3 by (left; right; left; exists 0%Q; split; reflexivity).
  exact (conj H1 (conj H2 (conj H3
           (mutual_information_zero_mass dark_1x1 dark_1x1 0 128 _ _ H1 H2 H3)))).
Defined.

(** ** Results on [marginal_pmf] proper *)

(** C3 fails on the code: the scan [range(0, 255, bin_size)] with
    [bin_size = 1] (and 3, the size the registration uses) never reads
    table entry 255, so the one pixel of [bright_1x1] is counted in
    [count] and in no bin, and the PMF sums to 0. *)
Theorem marginal_pmf_drops_255 :
  marginal_pmf bright_1x1 1 0 = Ok (replicate 255 (Fin 0%Q)) ∧
  pmf_sum (replicate 255 (Fin 0%Q)) = Fin 0%Q ∧
  marginal_pmf bright_1x1 3 0 = Ok (replicate 85 (Fin 0%Q)) ∧
  pmf_sum (replicate 85 (Fin 0%Q)) = Fin 0%Q.
Proof. repeat split; vm_compute; reflexivity. Qed.

(** C4 fails on the code: with [bin_size = 1] the PMF has 255 entries,
    not [ceil(256 / 1) = 256]. *)
Theorem marginal_pmf_bin_size_1 :
  marginal_pmf dark_1x1 1 0 = Ok (Fin 1%Q :: replicate 254 (Fin 0%Q)) ∧
  length (Fin 1%Q :: replicate 254 (Fin 0%Q)) = 255 ∧
  ceil_div 256 1 = 256%Z.
Proof. repeat split; vm_compute; reflexivity. Qed.

(** The length the code gives: [ceil(255 / bin_size)]. *)
Lemma marginal_pmf_length_ceil image (bin_size id0 : Z) l :
  (0 < bin_size)%Z → marginal_pmf image bin_size id0 = Ok l →
  Z.of_nat (length l) = ceil_div 255 bin_size.
Proof.
  intros Hpos Hrun. rewrite (marginal_pmf_length _ _ _ _ Hpos Hrun).
  unfold nbins, ceil_div.
  rewrite Z2Nat.id by (apply Z.div_pos; lia). f_equal. lia.
Qed.

(** C9: on an image whose truncated intensities lie in [0, 255],
    [marginal_pmf] returns for [bin_size = 255] and for [bin_size = 256]:
    one bin, the sum of the table entries 0..254, respectively 0..255,
    over the pixel count; no read leaves the table. *)
Theorem marginal_pmf_bin_255_256 image (id0 : Z) :
  Forall (λ x, 0 ≤ py_int x ≤ 255)%Z (pixels image) →
  ∃ h, raw_histogram image = Ok (h, len (pixels image)) ∧ length h = 256 ∧
    marginal_pmf image 255 id0 = Ok [bin_entry h (len (pixels image)) 255 0] ∧
    marginal_pmf image 256 id0 = Ok [bin_entry h (len (pixels image)) 256 0].
Proof.
  intros Hpix.
  assert (Forall in_table (pixels image)) as Hin.
  { eapply Forall_impl; [exact Hpix|]. intros x Hx. unfold in_table. cbn beta in Hx. lia. }
  destruct (marginal_pmf_Ok image 255 id0 Hin) as (h & Hraw & Hlen & _ & H255).
  { split; [lia|]. vm_compute. discriminate. }
  destruct (marginal_pmf_Ok image 256 id0 Hin) as (h' & Hraw' & _ & _ & H256).
  { split; [lia|]. vm_compute. discriminate. }
  assert (h' = h) as -> by congruence.
  exists h. repeat split; done.
Qed.

Lemma marginal_pmf_bin_255_256_witness :
  Forall (λ x, 0 ≤ py_int x ≤ 255)%Z (pixels bright_1x1) ∧
  ∃ h, raw_histogram bright_1x1 = Ok (h, len (pixels bright_1x1)) ∧ length h = 256 ∧
    marginal_pmf bright_1x1 255 0 = Ok [bin_entry h (len (pixels bright_1x1)) 255 0] ∧
    marginal_pmf bright_1x1 256 0 = Ok [bin_entry h (len (pixels bright_1x1)) 256 0].
Proof.
  assert (Forall (λ x, 0 ≤ py_int x ≤ 255)%Z (pixels bright_1x1)) as H1.
  { repeat constructor; vm_compute; discriminate. }
  exact (conj H1 (marginal_pmf_bin_255_256 bright_1x1 0 H1)).
Defined.

Lemma norm_negative (k v : Z) :
  (-256 ≤ k < 256)%Z → (-256 ≤ v ≤ -1)%Z →
  norm 256 k = Z.to_nat (256 + v) ↔ k = v ∨ k = (256 + v)%Z.
Proof. intros Hk Hv. unfold norm. case_decide; lia. Qed.

Lemma bin_count_negative xs (v : Z) :
  (-256 ≤ v ≤ -1)%Z → Forall in_table xs →
  bin_count (Z.to_nat (256 + v)) (py_int <$> xs)
  = Z.of_nat (length (filter (λ x, py_int x = v ∨ py_int x = (256 + v)%Z) xs)).
Proof.
  intros Hv Hxs. induction Hxs as [|x xs Hx _ IH]; [done|].
  rewrite fmap_cons, bin_count_cons, IH, filter_cons.
  pose proof (norm_negative (py_int x) v Hx Hv) as Hiff.
  repeat case_decide; cbn [length]; tauto || lia.
Qed.

(** C10: a pixel whose intensity truncates to a negative [v >= -256]
    does not stop the histogram loop: it adds 1 to table entry [256 + v]
    and 1 to [count].  So on an image whose truncated intensities all
    index the table, entry [256 + v] counts the pixels of intensity [v]
    together with those of intensity [256 + v], [count] is the number of
    all pixels, and [marginal_pmf] returns, for every bin size whose bins
    fit the table, the bin sums over that [count]. *)
Theorem negative_intensity_wraps image :
  (∀ x h c, length h = 256 → (-256 ≤ py_int x ≤ -1)%Z →
     ∃ n, h !! Z.to_nat (256 + py_int x) = Some n ∧
          tally x (h, c)
          = Ok (<[Z.to_nat (256 + py_int x) := (n + 1)%Z]> h, (c + 1)%Z)) ∧
  (Forall in_table (pixels image) →
   ∃ h, raw_histogram image = Ok (h, len (pixels image)) ∧ length h = 256 ∧
     (∀ v, (-256 ≤ v ≤ -1)%Z →
        h !! Z.to_nat (256 + v)
        = Some (Z.of_nat (length
            (filter (λ x, py_int x = v ∨ py_int x = (256 + v)%Z) (pixels image))))) ∧
     (∀ bin_size id0, bins_fit bin_size →
        marginal_pmf image bin_size id0
        = Ok ((λ k, bin_entry h (len (pixels image)) (Z.to_nat bin_size)
                      (k * Z.to_nat bin_size)) <$> seq 0 (nbins bin_size)))).
Proof.
  split.
  - intros x h c Hlen Hx. unfold tally. rewrite np_getitem_fits by lia.
    destruct (getitem_Ok h (py_int x)) as (n & -> & Hn); [rewrite Hlen; lia|].
    cbn [mbind result_bind]. rewrite np_setitem_fits by lia.
    rewrite setitem_Ok by (rewrite Hlen; lia).
    cbn [mbind result_bind]. rewrite Hlen in *.
    replace (norm 256 (py_int x)) with (Z.to_nat (256 + py_int x)) in *
      by (unfold norm; rewrite decide_False by lia; f_equal; lia).
    by exists n.
  - intros Hin. destruct (raw_histogram_Ok image Hin) as (h & Hraw & Hlen & Hbins).
    exists h. repeat split; try done.
    + intros v Hv. rewrite Hbins by lia. f_equal. by apply bin_count_negative.
    + intros bin_size id0 Hfit. unfold marginal_pmf. rewrite Hraw.
      cbn [mbind result_bind]. by apply bin_histogram_Ok.
Qed.

Lemma negative_intensity_wraps_witness :
  Forall in_table (pixels noisy_1x2) ∧
  ∃ h, raw_histogram noisy_1x2 = Ok (h, len (pixels noisy_1x2)) ∧ length h = 256 ∧
     (∀ v, (-256 ≤ v ≤ -1)%Z →
        h !! Z.to_nat (256 + v)
        = Some (Z.of_nat (length
            (filter (λ x, py_int x = v ∨ py_int x = (256 + v)%Z) (pixels noisy_1x2))))) ∧
     (∀ bin_size id0, bins_fit bin_size →
        marginal_pmf noisy_1x2 bin_size id0
        = Ok ((λ k, bin_entry h (len (pixels noisy_1x2)) (Z.to_nat bin_size)
                      (k * Z.to_nat bin_size)) <$> seq 0 (nbins bin_size))).
Proof.
  assert (Forall in_table (pixels noisy_1x2)) as H1.
  { repeat constructor; vm_compute; discriminate || reflexivity. }
  exact (conj H1 (proj2 (negative_intensity_wraps noisy_1x2) H1)).
Defined.

(** The intensity -1 lands in the last bin, next to the intensity 255. *)
Example marginal_pmf_noisy :
  marginal_pmf noisy_1x2 128 0 = Ok [Fin (1 # 2); Fin (1 # 2)].
Proof. vm_compute. reflexivity. Qed.

(** ** The scan *)

Lemma Forall_pixels_cells {A} (P : A → Prop) (a : ndarray A) :
  Forall P (concat (rows a)) ↔ ∀ i j v, cell a i j = Some v → P v.
Proof.
  unfold cell. rewrite Forall_concat. split.
  - intros Hall i j v Hv. destruct (rows a !! i) as [r|] eqn:Hr; [|done].
    cbn [mbind option_bind] in Hv.
    pose proof (Forall_lookup_1 _ _ _ _ Hall Hr) as Hrow.
    exact (Forall_lookup_1 _ _ _ _ Hrow Hv).
  - intros Hcells. apply Forall_lookup_2. intros i r Hr.
    apply Forall_lookup_2. intros j v Hv. apply (Hcells i j).
    by rewrite Hr.
Qed.

Lemma cell_bounds {A} (a : ndarray A) i j v :
  wf a → cell a i j = Some v → i < nrows a ∧ j < ncols a.
Proof.
  unfold cell, nrows. intros Hwf Hv.
  destruct (rows a !! i) as [r|] eqn:Hr; [|done]. cbn [mbind option_bind] in Hv.
  rewrite <-(wf_row a i r Hwf Hr).
  split; by eapply lookup_lt_Some.
Qed.

Lemma reference_in_table image :
  wf image → channels_in_table image →
  Forall in_table (pixels (crop 20 (amap chan1 image))).
Proof.
  intros Hwf Hin. apply Forall_pixels_cells. intros i j v Hv.
  pose proof (cell_bounds _ _ _ _ (crop_wf 20 _ (amap_wf chan1 _ Hwf)) Hv) as [_ Hj].
  rewrite crop_cell, amap_cell in Hv by exact Hj.
  destruct (cell image i (20 + j)) as [p|] eqn:Hp; [|done]. injection Hv as <-.
  by destruct (proj1 (Forall_pixels_cells _ _) Hin _ _ _ Hp).
Qed.

Lemma comparison_in_table image :
  channels_in_table image → Forall in_table (pixels (amap chan0 image)).
Proof.
  intros Hin. apply Forall_pixels_cells. intros i j v Hv.
  rewrite amap_cell in Hv.
  destruct (cell image i j) as [p|] eqn:Hp; [|done]. injection Hv as <-.
  by destruct (proj1 (Forall_pixels_cells _ _) Hin _ _ _ Hp).
Qed.

Lemma region_in_table (ref temp region : ndarray Q) shift :
  Forall in_table (pixels temp) →
  scanned ref temp shift (nrows ref) 0 region →
  Forall in_table (pixels region).
Proof.
  intros Hin (Hwf & Hnr & Hnc & Hcells). apply Forall_pixels_cells.
  intros i j v Hv. destruct (cell_bounds _ _ _ _ Hwf Hv) as [Hi Hj].
  destruct (Hcells i j) as (v' & Hv' & Ht); [left|..]; try lia.
  assert (v' = v) as -> by congruence.
  exact (proj1 (Forall_pixels_cells _ _) Hin _ _ _ Ht).
Qed.

Lemma bins_fit_3 : bins_fit 3.
Proof. split; [lia|]. vm_compute. discriminate. Qed.

(** One round of the scan. *)
Lemma registration_step (reference template : ndarray Q) (i : nat) :
  wf reference → wf template →
  nrows reference = nrows template → ncols reference + 40 = ncols template →
  Forall in_table (pixels reference) → Forall in_table (pixels template) →
  i < 41 →
  ∃ region mi,
    overlap reference template (Z.of_nat i) = Ok region ∧
    mutual_information reference region (Z.of_nat i) 3 = Ok mi.
Proof.
  intros Hwr Hwt Hrows Hcols Hinr Hint Hi.
  destruct (overlap_Ok reference template (Z.of_nat i)) as (region & Hrun & Hscan);
    [done|done| |].
  { intros _ _. split; [lia|]. unfold columns_valid. lia. }
  pose proof (region_in_table _ _ _ _ Hint Hscan) as Hinreg.
  destruct (marginal_pmf_Ok reference 3 (Z.of_nat i) Hinr bins_fit_3)
    as (h1 & _ & _ & _ & Hpx).
  destruct (marginal_pmf_Ok region 3 (Z.of_nat i + 100) Hinreg bins_fit_3)
    as (h2 & _ & _ & _ & Hpy).
  destruct (mutual_information_Ok _ _ _ _ _ _ Hpx Hpy) as (mi & Hmi & _).
  by exists region, mi.
Qed.

(** C1, as stated, fails: on the black 1x41 image [registration] returns
    41 bare scores (here nan, both marginals having empty bins), not 41
    (shift, score) pairs. *)
Lemma registration_returns_bare_scores :
  registration black_1x41 = Ok (replicate 41 (PyFloat NaN)) ∧
  ¬ ∃ scores, replicate 41 (PyFloat NaN) = shift_score_pairs scores.
Proof.
  split; [vm_compute; reflexivity|].
  intros ([|s scores] & Heq); discriminate Heq.
Qed.

(** C1, amended: for a rectangular 3-channel image with at least one
    row and at least 41 columns (so that the cropped reference has a
    pixel and [save] writes it) whose red and green intensities index
    the histogram table, [registration] returns a list of exactly 41
    scores, the score at position [k] being the mutual information of
    the reference and the overlap region of shift [k]; the shift is the
    position in the list. *)
Theorem registration_41_scores (image : ndarray rgb) :
  wf image → 0 < nrows image → 41 ≤ ncols image → channels_in_table image →
  ∃ reference template scores,
    prepare_image image = Ok (reference, template) ∧
    registration image = Ok (PyFloat <$> scores) ∧ length scores = 41 ∧
    ∀ k, k < 41 → ∃ region mi,
      overlap reference template (Z.of_nat k) = Ok region ∧
      mutual_information reference region (Z.of_nat k) 3 = Ok mi ∧
      scores !! k = Some mi.
Proof.
  intros Hwf Hrow H41 Hin. assert (40 ≤ ncols image) as H40 by lia.
  set (reference := crop 20 (amap chan1 image)).
  set (template := amap chan0 image).
  assert (wf reference) as Hwr by (by apply crop_wf, amap_wf).
  assert (wf template) as Hwt by (by apply amap_wf).
  assert (nrows template = nrows image) as Hrowt
    by (unfold nrows; cbn; by rewrite !length_fmap).
  assert (nrows reference = nrows template) as Hrows
    by (unfold nrows; cbn; by rewrite !length_fmap).
  assert (ncols reference + 40 = ncols template) as Hcols by (cbn; lia).
  assert (ncols template = ncols image) as Hcolt by done.
  pose proof (reference_in_table image Hwf Hin) as Hinr.
  pose proof (comparison_in_table image Hin) as Hint.
  unfold registration. rewrite prepare_image_eq by done.
  fold reference template. cbn [mbind result_bind].
  unfold save. rewrite !decide_False by lia. cbn [mbind result_bind].
  change 41%Z with (Z.of_nat 41).
  loop_inv (λ n (results : list pyval), ∃ scores,
    results = PyFloat <$> scores ∧ length scores = n ∧
    ∀ k, k < n → ∃ region mi,
      overlap reference template (Z.of_nat k) = Ok region ∧
      mutual_information reference region (Z.of_nat k) 3 = Ok mi ∧
      scores !! k = Some mi).
  - exists []. repeat split; try done. intros k Hk. lia.
  - intros n x results Hx (scores & -> & Hlen & Hscores).
    apply range_lookup in Hx as [-> Hn].
    destruct (registration_step reference template n) as (region & mi & Hov & Hmi);
      [done..|].
    rewrite Hov. cbn [mbind result_bind]. rewrite Hmi. cbn [mbind result_bind].
    eexists. split; [done|]. exists (scores ++ [mi]).
    split; [by rewrite fmap_app|]. split; [rewrite length_app; cbn; lia|].
    intros k Hk. destruct (decide (k = n)) as [->|Hne].
    + exists region, mi. repeat split; try done.
      rewrite lookup_app_r by lia. by rewrite Hlen, Nat.sub_diag.
    + destruct (Hscores k) as (region' & mi' & ? & ? & ?); [lia|].
      exists region', mi'. repeat split; try done.
      rewrite lookup_app_l by lia. done.
  - rewrite range_length in Hfin. destruct Hfin as (scores & -> & Hlen & Hscores).
    exists reference, template, scores. by rewrite Hrun.
Qed.

Lemma registration_41_scores_witness :
  wf black_1x41 ∧ 0 < nrows black_1x41 ∧ 41 ≤ ncols black_1x41 ∧
  channels_in_table black_1x41 ∧
  ∃ reference template scores,
    prepare_image black_1x41 = Ok (reference, template) ∧
    registration black_1x41 = Ok (PyFloat <$> scores) ∧ length scores = 41 ∧
    ∀ k, k < 41 → ∃ region mi,
      overlap reference template (Z.of_nat k) = Ok region ∧
      mutual_information reference region (Z.of_nat k) 3 = Ok mi ∧
      scores !! k = Some mi.
Proof.
  assert (wf black_1x41) as H1 by (repeat constructor).
  assert (0 < nrows black_1x41) as H0 by (cbn; lia).
  assert (41 ≤ ncols black_1x41) as H2 by (cbn; lia).
  assert (channels_in_table black_1x41) as H3.
  { unfold channels_in_table, black_1x41. cbn [rows concat]. rewrite app_nil_r.
    apply Forall_replicate. split; vm_compute; (split; [discriminate|reflexivity]). }
  exact (conj H1 (conj H0 (conj H2 (conj H3
           (registration_41_scores black_1x41 H1 H0 H2 H3))))).
Defined.

(** * Further properties of the code *)

(** ** The histogram table as a whole *)

Lemma Zsum_cons (x : Z) (l : list Z) : Zsum (x :: l) = (x + Zsum l)%Z.
Proof. reflexivity. Qed.

Lemma Zsum_insert (h : list Z) (i : nat) (v x : Z) :
  h !! i = Some v → Zsum (<[i := x]> h) = (Zsum h - v + x)%Z.
Proof.
  revert i. induction h as [|y h IH]; intros [|i] Hi; try done.
  - injection Hi as ->. change (<[0:=x]> (v :: h)) with (x :: h).
    rewrite !Zsum_cons. lia.
  - change (<[S i:=x]> (y :: h)) with (y :: <[i:=x]> h).
    rewrite !Zsum_cons, (IH i Hi). lia.
Qed.

Lemma Zsum_replicate_0 n : Zsum (replicate n 0%Z) = 0%Z.
Proof. induction n as [|n IH]; [done|]. cbn [replicate]. by rewrite Zsum_cons, IH. Qed.

Lemma tally_Ok_inv x h c h' c' :
  tally x (h, c) = Ok (h', c') →
  ∃ v, h !! norm (length h) (py_int x) = Some v ∧
       (- Z.of_nat (length h) ≤ py_int x < Z.of_nat (length h))%Z ∧
       h' = <[norm (length h) (py_int x) := (v + 1)%Z]> h ∧ c' = (c + 1)%Z.
Proof.
  unfold tally. intros Hstep.
  destruct (np_getitem h (py_int x)) as [v|] eqn:Hv; [|done].
  cbn [mbind result_bind] in Hstep.
  destruct (np_setitem h (py_int x) (v + 1)%Z) as [h2|] eqn:Hset; [|done].
  cbn [mbind result_bind] in Hstep. injection Hstep as <- <-.
  apply np_setitem_Ok_inv, setitem_Ok_inv in Hset as ->.
  apply np_getitem_Ok_inv, getitem_Ok_inv in Hv as [Hb Hv].
  by exists v.
Qed.

Lemma wf_pixels_length (image : ndarray Q) :
  wf image → length (pixels image) = nrows image * ncols image.
Proof.
  unfold wf, pixels, nrows. intros Hwf.
  induction Hwf as [|r rs Hr _ IH]; [done|].
  cbn [concat length]. rewrite length_app, IH. cbn beta in Hr. lia.
Qed.

(** A returned table holds non-negative counts that add up to [count],
    the number of pixels. *)
Lemma raw_histogram_total (image : ndarray Q) h c :
  raw_histogram image = Ok (h, c) →
  length h = 256 ∧ Forall (λ v, 0 ≤ v)%Z h ∧ Zsum h = c ∧
  c = Z.of_nat (length (pixels image)).
Proof.
  rewrite raw_histogram_flat. intros Hrun.
  apply (for_each_inv_Ok
    (λ k st, length st.1 = 256 ∧ Forall (λ v, 0 ≤ v)%Z st.1 ∧
             Zsum st.1 = st.2 ∧ st.2 = Z.of_nat k) _ _ _ _ Hrun).
  - cbn [fst snd]. rewrite length_replicate, Zsum_replicate_0.
    repeat split; try done. by apply Forall_replicate.
  - clear Hrun. intros k x [h0 c0] [h1 c1] _ (Hlen & Hall & Hsum & Hc) Hstep.
    cbn [fst snd] in *.
    apply tally_Ok_inv in Hstep as (v & Hv & _ & -> & ->).
    pose proof (Forall_lookup_1 _ _ _ _ Hall Hv) as Hv0. cbn beta in Hv0.
    rewrite length_insert, (Zsum_insert _ _ v) by done.
    repeat split; try lia. apply Forall_insert; [done|lia].
Qed.

(** X1: when the histogram loop of [marginal_pmf] (lines 105-111) ends,
    the table has its 256 entries, none of them negative, they add up
    to [count], and [count] is the number of pixels visited: rows times
    columns on a rectangular image.  Nothing is counted twice or lost,
    also when negative intensities wrap to the end of the table. *)
Theorem raw_histogram_counts_every_pixel (image : ndarray Q) h c :
  raw_histogram image = Ok (h, c) →
  length h = 256 ∧ Forall (λ v, 0 ≤ v)%Z h ∧ Zsum h = c ∧
  c = Z.of_nat (length (pixels image)) ∧
  (wf image → c = Z.of_nat (nrows image * ncols image)).
Proof.
  intros Hrun. destruct (raw_histogram_total image h c Hrun) as (H1 & H2 & H3 & H4).
  repeat split; try done. intros Hwf. by rewrite H4, wf_pixels_length.
Qed.

Lemma raw_histogram_counts_every_pixel_witness :
  raw_histogram noisy_1x2 = Ok (noisy_table, 2%Z) ∧
  length noisy_table = 256 ∧ Forall (λ v, 0 ≤ v)%Z noisy_table ∧
  Zsum noisy_table = 2%Z ∧
  2%Z = Z.of_nat (length (pixels noisy_1x2)) ∧
  (wf noisy_1x2 → 2%Z = Z.of_nat (nrows noisy_1x2 * ncols noisy_1x2)).
Proof.
  assert (raw_histogram noisy_1x2 = Ok (noisy_table, 2%Z)) as H1
    by (vm_compute; reflexivity).
  exact (conj H1 (raw_histogram_counts_every_pixel noisy_1x2 noisy_table 2 H1)).
Defined.

(** ** Failure of the histogram loop *)

Lemma index_out n k : (k < - Z.of_nat n ∨ Z.of_nat n ≤ k)%Z → index n k = Raise IndexError.
Proof. intros Hk. unfold index. rewrite !decide_False by lia. done. Qed.

Lemma getitem_out {A} (l : list A) k :
  (k < - Z.of_nat (length l) ∨ Z.of_nat (length l) ≤ k)%Z →
  getitem l k = Raise IndexError.
Proof. intros Hk. unfold getitem. by rewrite index_out. Qed.

(** The step on a pixel outside the table: the read [hist_vals[pix]]
    raises, OverflowError when [pix] does not fit the signed index. *)
Lemma tally_Raise x h c :
  length h = 256 → ¬ in_table x →
  tally x (h, c)
  = Raise (if decide (2 ^ 63 ≤ py_int x < 2 ^ 64)%Z then OverflowError else IndexError).
Proof.
  intros Hlen Hout. unfold tally, np_getitem, in_table in *. case_decide; [done|].
  rewrite getitem_out by (rewrite Hlen; lia). done.
Qed.

Lemma tally_loop_stops pre x post h c :
  length h = 256 → Forall in_table pre → ¬ in_table x →
  for_each (pre ++ x :: post) tally (h, c)
  = Raise (if decide (2 ^ 63 ≤ py_int x < 2 ^ 64)%Z then OverflowError else IndexError).
Proof.
  intros Hlen Hpre Hout.
  destruct (tally_loop pre h c Hlen Hpre) as (h' & Hrun & Hlen' & _).
  rewrite for_each_app, Hrun. cbn [mbind result_bind for_each].
  by rewrite tally_Raise.
Qed.

(** X2: the first pixel whose truncated intensity lies outside
    [[-256, 255]] stops [marginal_pmf], whatever the bin size, at the
    read [hist_vals[pix]]: with IndexError when the intensity fits a
    signed 64-bit index, with OverflowError when it lies in
    [[2^63, 2^64)]. *)
Theorem marginal_pmf_intensity_out_of_table (image : ndarray Q) (bin_size id0 : Z)
    (pre : list Q) (x : Q) (post : list Q) :
  pixels image = pre ++ x :: post → Forall in_table pre →
  (- 2 ^ 63 ≤ py_int x < -256 ∨ 256 ≤ py_int x < 2 ^ 64)%Z →
  marginal_pmf image bin_size id0
  = Raise (if decide (2 ^ 63 ≤ py_int x)%Z then OverflowError else IndexError).
Proof.
  intros Hpix Hpre Hx. unfold marginal_pmf.
  rewrite raw_histogram_flat, Hpix, tally_loop_stops;
    [|done|done|unfold in_table; lia].
  cbn [mbind result_bind]. repeat case_decide; done || lia.
Qed.

Lemma marginal_pmf_intensity_out_of_table_witness :
  pixels saturated_1x1 = [] ++ 256%Q :: [] ∧ Forall in_table (@nil Q) ∧
  (- 2 ^ 63 ≤ py_int 256 < -256 ∨ 256 ≤ py_int 256 < 2 ^ 64)%Z ∧
  marginal_pmf saturated_1x1 3 0
  = Raise (if decide (2 ^ 63 ≤ py_int 256)%Z then OverflowError else IndexError).
Proof.
  assert (pixels saturated_1x1 = [] ++ 256%Q :: []) as H1 by reflexivity.
  assert (Forall in_table (@nil Q)) as H2 by constructor.
  assert (- 2 ^ 63 ≤ py_int 256 < -256 ∨ 256 ≤ py_int 256 < 2 ^ 64)%Z as H3
    by (right; vm_compute; split; [discriminate|reflexivity]).
  exact (conj H1 (conj H2 (conj H3
           (marginal_pmf_intensity_out_of_table saturated_1x1 3 0 [] 256%Q [] H1 H2 H3)))).
Defined.

(** A pixel of intensity [2^63], as evaluated. *)
Example marginal_pmf_overflow :
  marginal_pmf (NdArray 1 [[inject_Z (2 ^ 63)]]) 3 0 = Raise OverflowError.
Proof. vm_compute. reflexivity. Qed.

(** ** Bin sizes that are not positive *)

Lemma range3_neg (stop step : Z) :
  (0 ≤ stop)%Z → (step < 0)%Z → range3 0 stop step = Ok [].
Proof.
  intros Hstop Hs. unfold range3. rewrite !decide_False by lia.
  assert (((0 - stop - step - 1) `div` (- step)) < 1)%Z as Hn
    by (apply Z.div_lt_upper_bound; lia).
  replace (Z.to_nat _) with 0 by lia. done.
Qed.

(** X3: on an image whose intensities index the table, a bin size
    that is not positive gives no PMF: [bin_size = 0] raises ValueError
    (the step of [range(0, 255, bin_size)]), a negative [bin_size]
    makes that range empty and the empty list is returned. *)
Theorem marginal_pmf_bin_size_not_positive (image : ndarray Q) (bin_size id0 : Z) :
  Forall in_table (pixels image) → (bin_size ≤ 0)%Z →
  marginal_pmf image bin_size id0
  = if decide (bin_size = 0)%Z then Raise ValueError else Ok [].
Proof.
  intros Hin Hle. destruct (raw_histogram_Ok image Hin) as (h & Hraw & _).
  unfold marginal_pmf. rewrite Hraw. cbn [mbind result_bind].
  unfold bin_histogram. case_decide as Hz.
  - by subst.
  - by rewrite range3_neg by lia.
Qed.

Lemma marginal_pmf_bin_size_not_positive_witness :
  Forall in_table (pixels dark_1x1) ∧ (-3 ≤ 0)%Z ∧
  marginal_pmf dark_1x1 (-3) 0
  = if decide (-3 = 0)%Z then Raise ValueError else Ok [].
Proof.
  assert (Forall in_table (pixels dark_1x1)) as H1
    by (repeat constructor; vm_compute; discriminate).
  assert (-3 ≤ 0)%Z as H2 by lia.
  exact (conj H1 (conj H2 (marginal_pmf_bin_size_not_positive dark_1x1 (-3) 0 H1 H2))).
Defined.

(** ** An image without pixels *)

Lemma Zsum_zero (l : list Z) : Forall (λ v, v = 0%Z) l → Zsum l = 0%Z.
Proof. induction 1 as [|x l Hx _ IH]; [done|]. rewrite Zsum_cons, IH. cbn beta in Hx. lia. Qed.

(** X4: on an image without pixels [count] stays 0, every bin is
    [0.0 / 0] and [marginal_pmf] returns a list of nan, one per bin;
    no exception is raised. *)
Theorem marginal_pmf_no_pixel (image : ndarray Q) (bin_size id0 : Z) :
  pixels image = [] → bins_fit bin_size →
  marginal_pmf image bin_size id0 = Ok (replicate (nbins bin_size) NaN).
Proof.
  intros Hempty Hfit. unfold marginal_pmf.
  rewrite raw_histogram_flat, Hempty. cbn [for_each mbind result_bind].
  rewrite bin_histogram_Ok by (done || by rewrite length_replicate).
  f_equal. apply list_eq. intros k. rewrite list_lookup_fmap.
  destruct (decide (k < nbins bin_size)) as [Hk|Hk].
  - rewrite lookup_seq_lt, lookup_replicate_2 by done. cbn [fmap option_fmap option_map].
    f_equal. unfold bin_entry, bin_sum. rewrite Zsum_zero; [done|].
    apply Forall_take, Forall_drop. by apply Forall_replicate.
  - rewrite lookup_seq_ge by lia. symmetry. apply lookup_replicate_None. lia.
Qed.

Lemma marginal_pmf_no_pixel_witness :
  pixels no_pixels = [] ∧ bins_fit 3 ∧
  marginal_pmf no_pixels 3 0 = Ok (replicate (nbins 3) NaN).
Proof.
  assert (pixels no_pixels = []) as H1 by reflexivity.
  assert (bins_fit 3) as H2 by (split; vm_compute; [reflexivity|discriminate]).
  exact (conj H1 (conj H2 (marginal_pmf_no_pixel no_pixels 3 0 H1 H2))).
Defined.

(** ** Bins that leave the table *)

Lemma for_each_Raise_at {A St} (l1 l2 : list A) (x : A)
    (body : A → St → result St) s s1 e :
  for_each l1 body s = Ok s1 → body x s1 = Raise e →
  for_each (l1 ++ x :: l2) body s = Raise e.
Proof.
  intros H1 Hx. rewrite for_each_app, H1. cbn [mbind result_bind for_each].
  by rewrite Hx.
Qed.

Lemma range_split (m n : nat) :
  m < n →
  range (Z.of_nat n)
  = range (Z.of_nat m) ++ Z.of_nat m :: (Z.of_nat <$> seq (S m) (n - S m)).
Proof.
  intros Hm. rewrite !range_of_nat.
  replace n with (m + S (n - S m)) at 1 by lia.
  rewrite seq_app, fmap_app. cbn [seq fmap list_fmap plus]. done.
Qed.

Lemma bin_inner_Raise h (x bin_size : Z) :
  length h = 256 →
  (0 ≤ x ≤ 256)%Z → (256 < x + bin_size)%Z →
  for_each (range bin_size) (λ j var,
    hv ← getitem h (x + j)%Z; Ok (var + hv)%Z) 0%Z = Raise IndexError.
Proof.
  intros Hlen Hx Hover.
  rewrite <-(Z2Nat.id bin_size) by lia.
  rewrite (range_split (Z.to_nat (256 - x))) by lia.
  eapply for_each_Raise_at.
  - rewrite Z2Nat.id by lia. apply bin_inner; rewrite ?Hlen; lia.
  - rewrite getitem_out; [done|]. rewrite Hlen. lia.
Qed.

Lemma nbins_pos (bin_size : Z) : (0 < bin_size)%Z → 0 < nbins bin_size.
Proof.
  intros Hpos. unfold nbins.
  assert (1 ≤ (254 + bin_size) `div` bin_size)%Z; [|lia].
  apply Z.div_le_lower_bound; lia.
Qed.

Lemma nbins_last_start (bin_size : Z) :
  (0 < bin_size)%Z → (bin_size * Z.of_nat (nbins bin_size - 1) ≤ 254)%Z.
Proof.
  intros Hpos. pose proof (nbins_pos bin_size Hpos) as Hn. unfold nbins in *.
  pose proof (Z.mul_div_le (254 + bin_size) bin_size Hpos) as Hle.
  assert (0 ≤ (254 + bin_size) `div` bin_size)%Z by (apply Z.div_pos; lia).
  rewrite Nat2Z.inj_sub, Z2Nat.id by lia. lia.
Qed.

Lemma bin_histogram_overrun h c (bin_size : Z) :
  length h = 256 → (0 < bin_size)%Z → ¬ bins_fit bin_size →
  bin_histogram h c bin_size = Raise IndexError.
Proof.
  intros Hlen Hpos Hfit. unfold bin_histogram. rewrite range3_pos by done.
  cbn [mbind result_bind].
  replace (Z.to_nat ((255 - 0 + bin_size - 1) `div` bin_size)) with (nbins bin_size)
    by (unfold nbins; do 2 f_equal; lia).
  pose proof (nbins_pos bin_size Hpos) as Hn.
  pose proof (nbins_last_start bin_size Hpos) as Hlast.
  set (n := nbins bin_size) in *.
  assert (256 < bin_size * Z.of_nat n)%Z as Hover.
  { unfold bins_fit in Hfit. fold n in Hfit. lia. }
  replace n with ((n - 1) + 1) at 1 by lia.
  rewrite seq_app, fmap_app. cbn [seq fmap list_fmap plus].
  assert (0 ≤ bin_size * Z.of_nat (n - 1))%Z as Hnn
    by (apply Z.mul_nonneg_nonneg; lia).
  assert (∃ res, for_each ((λ k : nat, (0 + bin_size * Z.of_nat k)%Z) <$> seq 0 (n - 1))
            (λ i hist_result,
               var ← for_each (range bin_size) (λ j var,
                 hv ← getitem h (i + j)%Z; Ok (var + hv)%Z) 0%Z;
               Ok (hist_result ++
                   [np_div (Fin (inject_Z var)) (Fin (inject_Z c))])) [] = Ok res)
    as [res Hres].
  { loop_inv (λ (_ : nat) (_ : list (ext Q)), True); [done| |by eauto].
    intros k x s Hx _. rewrite list_lookup_fmap in Hx.
    destruct (seq 0 (n - 1) !! k) as [k'|] eqn:Hk; [|done].
    apply lookup_seq in Hk as [-> Hk]. injection Hx as <-. cbn [plus].
    assert (bin_size * (Z.of_nat k + 1) ≤ bin_size * Z.of_nat (n - 1))%Z
      by (apply Z.mul_le_mono_nonneg_l; lia).
    assert (0 ≤ bin_size * Z.of_nat k)%Z by (apply Z.mul_nonneg_nonneg; lia).
    rewrite bin_inner by (rewrite ?Hlen; lia). cbn [mbind result_bind]. eauto. }
  eapply for_each_Raise_at; [exact Hres|].
  rewrite bin_inner_Raise; [done|done|lia|].
  replace (Z.of_nat n) with (Z.of_nat (n - 1) + 1)%Z in Hover by lia. lia.
Qed.

(** X5: for a positive bin size whose last bin ends beyond the 256
    entries of the table ([ceil(255 / bin_size) * bin_size > 256], for
    instance every bin size from 86 to 127), [marginal_pmf] raises
    IndexError at [hist_vals[i + j]]. *)
Theorem marginal_pmf_bins_overrun (image : ndarray Q) (bin_size id0 : Z) :
  Forall in_table (pixels image) → (0 < bin_size)%Z →
  (256 < ceil_div 255 bin_size * bin_size)%Z →
  marginal_pmf image bin_size id0 = Raise IndexError.
Proof.
  intros Hin Hpos Hover. destruct (raw_histogram_Ok image Hin) as (h & Hraw & Hlen & _).
  unfold marginal_pmf. rewrite Hraw. cbn [mbind result_bind].
  apply bin_histogram_overrun; [done..|]. intros [_ Hfit].
  unfold ceil_div, nbins in *.
  rewrite Z2Nat.id in Hfit by (apply Z.div_pos; lia).
  replace (255 + bin_size - 1)%Z with (254 + bin_size)%Z in Hover by lia. lia.
Qed.

Lemma marginal_pmf_bins_overrun_witness :
  Forall in_table (pixels dark_1x1) ∧ (0 < 200)%Z ∧
  (256 < ceil_div 255 200 * 200)%Z ∧
  marginal_pmf dark_1x1 200 0 = Raise IndexError.
Proof.
  assert (Forall in_table (pixels dark_1x1)) as H1
    by (repeat constructor; vm_compute; discriminate).
  assert (0 < 200)%Z as H2 by lia.
  assert (256 < ceil_div 255 200 * 200)%Z as H3 by (vm_compute; reflexivity).
  exact (conj H1 (conj H2 (conj H3 (marginal_pmf_bins_overrun dark_1x1 200 0 H1 H2 H3)))).
Defined.

(** ** Normalisation *)

Lemma Zsum_nonneg (l : list Z) : Forall (λ v, 0 ≤ v)%Z l → (0 ≤ Zsum l)%Z.
Proof.
  induction 1 as [|x l Hx _ IH]; [done|]. rewrite Zsum_cons. cbn beta in Hx. lia.
Qed.

Lemma Zsum_take_drop (l : list Z) (m : nat) :
  (Zsum (take m l) + Zsum (drop m l))%Z = Zsum l.
Proof. by rewrite <-Zsum_app, take_drop. Qed.

Lemma bin_sum_bounds (h : list Z) (i bs : nat) :
  Forall (λ v, 0 ≤ v)%Z h → (0 ≤ bin_sum h i bs ≤ Zsum h)%Z.
Proof.
  intros Hall. unfold bin_sum.
  pose proof (Zsum_take_drop h i) as H1.
  pose proof (Zsum_take_drop (drop i h) bs) as H2.
  pose proof (Zsum_nonneg _ (Forall_take _ i _ Hall)).
  pose proof (Zsum_nonneg _ (Forall_take _ bs _ (Forall_drop _ i _ Hall))).
  pose proof (Zsum_nonneg _ (Forall_drop _ bs _ (Forall_drop _ i _ Hall))).
  lia.
Qed.

(** The bins tile the table from its start. *)
Lemma bin_sums_take (h : list Z) (bs n : nat) :
  Zsum ((λ k, bin_sum h (k * bs) bs) <$> seq 0 n) = Zsum (take (n * bs) h).
Proof.
  induction n as [|n IH]; [done|].
  rewrite seq_S, fmap_app, Zsum_app, IH. cbn [plus fmap list_fmap].
  rewrite Zsum_cons. unfold bin_sum, Zsum at 3. cbn [foldr].
  rewrite Z.add_0_r, <-Zsum_app, take_take_drop. f_equal. f_equal. lia.
Qed.

Lemma Qsum_inject_Z (zs : list Z) : (Qsum (inject_Z <$> zs) == inject_Z (Zsum zs))%Q.
Proof.
  induction zs as [|z zs IH]; [done|].
  cbn [fmap list_fmap]. rewrite Zsum_cons, inject_Z_plus.
  unfold Qsum in *. cbn [foldr]. cbn [fmap] in IH. by rewrite IH.
Qed.

Lemma marginal_pmf_fractions (image : ndarray Q) (bin_size id0 : Z) :
  Forall in_table (pixels image) → pixels image ≠ [] → bins_fit bin_size →
  ∃ h c, raw_histogram image = Ok (h, c) ∧ (0 < c)%Z ∧
    marginal_pmf image bin_size id0
    = Ok (Fin <$> ((λ z, inject_Z z / inject_Z c)%Q
                     <$> ((λ k, bin_sum h (k * Z.to_nat bin_size) (Z.to_nat bin_size))
                            <$> seq 0 (nbins bin_size)))).
Proof.
  intros Hin Hne Hfit.
  destruct (marginal_pmf_Ok image bin_size id0 Hin Hfit) as (h & Hraw & _ & _ & Hrun).
  assert (0 < len (pixels image))%Z as Hc.
  { unfold len. destruct (pixels image); [done|]. cbn [length]. lia. }
  exists h, (len (pixels image)). split; [done|]. split; [done|].
  rewrite Hrun. f_equal. rewrite <-!list_fmap_compose.
  apply list_fmap_ext. intros _ k _. cbn [compose]. unfold bin_entry, np_div.
  by rewrite Qeq_bool_pos by (by apply inject_Z_pos).
Qed.

(** X6: on a non-empty image whose intensities index the table, and
    for a bin size whose bins stay inside it, [marginal_pmf] returns
    one finite entry per bin, each in [[0, 1]]; the entries add up
    to at most 1, and to exactly 1 when the bins cover all 256 table
    entries. *)
Theorem marginal_pmf_normalized (image : ndarray Q) (bin_size id0 : Z) :
  Forall in_table (pixels image) → pixels image ≠ [] → bins_fit bin_size →
  ∃ qs, marginal_pmf image bin_size id0 = Ok (Fin <$> qs) ∧
    length qs = nbins bin_size ∧
    Forall (λ q, 0 <= q ∧ q <= 1)%Q qs ∧
    (Qsum qs <= 1)%Q ∧
    ((Z.of_nat (nbins bin_size) * bin_size = 256)%Z → (Qsum qs == 1)%Q).
Proof.
  intros Hin Hne Hfit.
  destruct (marginal_pmf_fractions image bin_size id0 Hin Hne Hfit)
    as (h & c & Hraw & Hc & Hrun).
  destruct (raw_histogram_total image h c Hraw) as (Hlen & Hall & Hsum & _).
  pose proof (inject_Z_pos c Hc) as HC.
  eexists. split; [exact Hrun|].
  split; [by rewrite !length_fmap, length_seq|].
  set (bs := Z.to_nat bin_size). set (n := nbins bin_size).
  assert (∀ z, (0 ≤ z ≤ c)%Z → (0 <= inject_Z z / inject_Z c ∧ inject_Z z / inject_Z c <= 1)%Q)
    as Hfrac.
  { intros z Hz. split.
    - apply Qdiv_nonneg; [apply inject_Z_nonneg; lia|done].
    - apply Qle_shift_div_r; [done|]. rewrite Qmult_1_l, <-Zle_Qle. lia. }
  assert (Qsum ((λ z, inject_Z z / inject_Z c)%Q
                  <$> ((λ k, bin_sum h (k * bs) bs) <$> seq 0 n))
          == inject_Z (Zsum (take (n * bs) h)) / inject_Z c)%Q as Htotal.
  { rewrite (list_fmap_compose inject_Z (λ q, q / inject_Z c)%Q).
    rewrite Qsum_div by lra. by rewrite Qsum_inject_Z, bin_sums_take. }
  pose proof (Zsum_take_drop h (n * bs)) as Hsplit.
  pose proof (Zsum_nonneg _ (Forall_take _ (n * bs) _ Hall)) as H0.
  pose proof (Zsum_nonneg _ (Forall_drop _ (n * bs) _ Hall)) as H1.
  split; [|split].
  - apply Forall_fmap, Forall_fmap, Forall_forall. intros k _. cbn [compose].
    apply Hfrac. rewrite <-Hsum. by apply bin_sum_bounds.
  - rewrite Htotal. apply Hfrac. lia.
  - intros Hcover. rewrite Htotal, take_ge, Hsum by (unfold n, bs; lia).
    field. lra.
Qed.

Lemma marginal_pmf_normalized_witness :
  Forall in_table (pixels noisy_1x2) ∧ pixels noisy_1x2 ≠ [] ∧ bins_fit 128 ∧
  ∃ qs, marginal_pmf noisy_1x2 128 0 = Ok (Fin <$> qs) ∧
    length qs = nbins 128 ∧
    Forall (λ q, 0 <= q ∧ q <= 1)%Q qs ∧
    (Qsum qs <= 1)%Q ∧
    ((Z.of_nat (nbins 128) * 128 = 256)%Z → (Qsum qs == 1)%Q).
Proof.
  assert (Forall in_table (pixels noisy_1x2)) as H1
    by (repeat constructor; vm_compute; discriminate).
  assert (pixels noisy_1x2 ≠ []) as H2 by discriminate.
  assert (bins_fit 128) as H3 by (split; vm_compute; [reflexivity|discriminate]).
  exact (conj H1 (conj H2 (conj H3 (marginal_pmf_normalized noisy_1x2 128 0 H1 H2 H3)))).
Defined.

(** ** When [mutual_information] raises *)

(** X7: [mutual_information] raises exactly the exception of the
    first [marginal_pmf] call that raises; [joint_pmf], the divisions
    and [math.log] add no failure of their own. *)
Theorem mutual_information_raises (image1 image2 : ndarray Q) (id0 bin_size : Z) e :
  mutual_information image1 image2 id0 bin_size = Raise e ↔
  marginal_pmf image1 bin_size id0 = Raise e ∨
  ((∃ px, marginal_pmf image1 bin_size id0 = Ok px) ∧
   marginal_pmf image2 bin_size (id0 + 100)%Z = Raise e).
Proof.
  destruct (marginal_pmf image1 bin_size id0) as [px|e1] eqn:Hpx.
  - destruct (marginal_pmf image2 bin_size (id0 + 100)%Z) as [py|e2] eqn:Hpy.
    + destruct (mutual_information_Ok _ _ _ _ _ _ Hpx Hpy) as (mi & -> & _).
      split; [done|]. intros [?|[_ ?]]; done.
    + unfold mutual_information. rewrite Hpx, Hpy. cbn [mbind result_bind].
      split; [intros [= ->]; right; eauto|]. by intros [?|[_ [= ->]]].
  - unfold mutual_information. rewrite Hpx. cbn [mbind result_bind].
    split; [intros [= ->]; by left|]. by intros [[= ->]|[[px ?] _]].
Qed.

(** ** When the score is a number *)

Lemma positive_mass_entry v : positive_mass v → pmf_entry v.
Proof. intros (q & -> & Hq). right. exists q. split; [done|lra]. Qed.

Lemma Qcompare_pos (q : Q) : (0 < q)%Q → (q ?= 0)%Q = Gt.
Proof. intros Hq. by apply Qgt_alt. Qed.

Lemma mi_term_cases (xi yj total : ext Q) :
  pmf_entry xi → pmf_entry yj → pmf_entry total →
  ∃ l, math_log2 (np_div (np_div (np_add xi yj) total) (np_mul xi yj)) = Ok l ∧
       times_log (np_div (np_add xi yj) total) l ≠ NInf ∧
       (is_finite (times_log (np_div (np_add xi yj) total) l) = true ↔
        positive_mass xi ∧ positive_mass yj ∧ positive_mass total).
Proof.
  intros [->|(a & -> & Ha)] [->|(b & -> & Hb)] [->|(s & -> & Hs)];
    try (exists NaN; cbn; (split; [done|]); (split; [done|]);
         split; [done|]; by intros ((? & ? & ?) & (? & ? & ?) & (? & ? & ?))).
  assert (0 <= a * b)%Q as Hab by (by apply Qmult_le_0_compat).
  cbn [np_add ext_add np_mul np_div].
  destruct (Qeq_bool s 0) eqn:Hs0.
  - apply Qeq_bool_eq in Hs0.
    assert (¬ positive_mass (Fin s)) as Hns.
    { intros (q & [= <-] & Hq). lra. }
    destruct (a + b ?= 0)%Q eqn:Hsum; cbn [ext_signed ext_opp np_div].
    + exists NaN. cbn. repeat split; try done. tauto.
    + destruct (Qcompare_nonneg (a + b)); [lra|done].
    + apply Qle_bool_iff in Hab. rewrite Hab. exists PInf. cbn.
      repeat split; try done. tauto.
  - apply Qeq_bool_false_pos in Hs0; [|done].
    assert (0 <= (a + b) / s)%Q as Hp by (apply Qdiv_nonneg; [lra|done]).
    cbn [np_div]. destruct (Qeq_bool (a * b) 0) eqn:Hab0.
    + apply Qeq_bool_eq in Hab0.
      assert (¬ (positive_mass (Fin a) ∧ positive_mass (Fin b))) as Hnab.
      { intros [(q1 & [= <-] & Hq1) (q2 & [= <-] & Hq2)].
        pose proof (Qmult_lt_0_compat _ _ Hq1 Hq2). lra. }
      destruct ((a + b) / s ?= 0)%Q eqn:Hp0; cbn [ext_signed ext_opp math_log2].
      * exists NaN. cbn. repeat split; try done. tauto.
      * by destruct (Qcompare_nonneg _ Hp).
      * exists PInf. cbn [times_log ext_signed]. rewrite Hp0. cbn.
        repeat split; try done. tauto.
    + apply Qeq_bool_neq in Hab0 as Hne.
      apply Qeq_bool_false_pos in Hab0 as Hpos; [|done].
      assert (0 < a)%Q as Hapos.
      { apply Qle_lteq in Ha as [Ha|Ha]; [done|]. destruct Hne.
        by rewrite <-Ha, Qmult_0_l. }
      assert (0 < b)%Q as Hbpos.
      { apply Qle_lteq in Hb as [Hb|Hb]; [done|]. destruct Hne.
        by rewrite <-Hb, Qmult_0_r. }
      assert (0 < (a + b) / s / (a * b))%Q as Hvar2.
      { apply Qlt_shift_div_l; [done|]. rewrite Qmult_0_l.
        apply Qlt_shift_div_l; [done|]. rewrite Qmult_0_l. lra. }
      cbn [math_log2]. rewrite Qle_bool_pos_false by done.
      eexists. split; [done|]. cbn [times_log is_finite]. split; [done|].
      split; [intros _|done]. repeat split; eexists; eauto.
Qed.

Lemma score_add_finite (acc t : ext R) :
  acc ≠ NInf → t ≠ NInf →
  score_add acc t ≠ NInf ∧
  (is_finite (score_add acc t) = true ↔ is_finite acc = true ∧ is_finite t = true).
Proof. destruct acc, t; cbn; intros ? ?; repeat split; try done; by intros [? ?]. Qed.

Lemma mi_loops_finite (px py : list (ext Q)) (pxy : ndarray (ext Q)) (total : ext Q) :
  Forall pmf_entry px → Forall pmf_entry py → pmf_entry total →
  (∀ i j xi yj, px !! i = Some xi → py !! j = Some yj →
     cell pxy i j = Some (np_div (np_add xi yj) total)) →
  ∃ mi,
    for_each (range (len px)) (λ i mutual_information,
      for_each (range (len py)) (λ j mutual_information,
        xi ← getitem px i;
        yj ← getitem py j;
        let var1 := np_mul xi yj in
        pij ← getcell pxy i j;
        let var2 := np_div pij var1 in
        l ← math_log2 var2;
        let partial := times_log pij l in
        Ok (score_add mutual_information partial)) mutual_information)
      (Fin 0%R) = Ok mi ∧
    (is_finite mi = true ↔ mass_before px py total (length px) 0).
Proof.
  intros Hpx Hpy Htotal Hcells. unfold len.
  loop_inv (λ i (acc : ext R),
    acc ≠ NInf ∧ (is_finite acc = true ↔ mass_before px py total i 0)).
  - split; [done|]. split; [|done]. intros _ i' j' xi yj [?|[_ ?]]; lia.
  - intros i x acc Hx [Hacc Hfin]. apply range_lookup in Hx as [-> Hi].
    destruct (lookup_lt_is_Some_2 px i Hi) as [xi Hxi].
    loop_inv (λ j (acc' : ext R),
      acc' ≠ NInf ∧ (is_finite acc' = true ↔ mass_before px py total i j)).
    + done.
    + intros j y acc' Hy [Hacc' Hfin']. apply range_lookup in Hy as [-> Hj].
      destruct (lookup_lt_is_Some_2 py j Hj) as [yj Hyj].
      rewrite (getitem_of_nat _ _ _ Hxi). cbn [mbind result_bind].
      rewrite (getitem_of_nat _ _ _ Hyj). cbn [mbind result_bind].
      rewrite (getcell_of_nat _ _ _ _ (Hcells _ _ _ _ Hxi Hyj)).
      cbn [mbind result_bind].
      destruct (mi_term_cases xi yj total) as (l & -> & Hl & Hterm);
        [exact (Forall_lookup_1 _ _ _ _ Hpx Hxi)
        |exact (Forall_lookup_1 _ _ _ _ Hpy Hyj)|done|].
      cbn [mbind result_bind]. eexists. split; [done|].
      destruct (score_add_finite acc' _ Hacc' Hl) as [Hne Hadd]. split; [done|].
      rewrite Hadd, Hfin', Hterm. split.
      * intros [Hbefore Hcell] i' j' xi' yj' Hpos Hxi' Hyj'.
        destruct (decide (i' = i ∧ j' = j)) as [[-> ->]|Hne'].
        -- assert (xi' = xi) as -> by congruence.
           by assert (yj' = yj) as -> by congruence.
        -- apply (Hbefore i' j'); [|done..].
           destruct Hpos as [?|[-> ?]]; [by left|right]. split; [done|].
           destruct (decide (j' = j)) as [->|]; [tauto|lia].
      * intros Hall. split.
        -- intros i' j' xi' yj' Hpos. apply Hall.
           destruct Hpos as [?|[-> ?]]; [by left|right; split; [done|lia]].
        -- apply (Hall i j); [right; split; [done|lia]|done..].
    + exists res. split; [exact Hrun|]. rewrite range_length in Hfin0.
      destruct Hfin0 as [Hne Hres]. split; [done|]. rewrite Hres. split.
      * intros Hall i' j' xi' yj' Hpos Hxi' Hyj'. apply (Hall i' j'); [|done..].
        destruct Hpos as [Hlt|[_ ?]]; [|lia].
        destruct (decide (i' = i)) as [->|]; [right|left; lia].
        split; [done|]. by eapply lookup_lt_Some.
      * intros Hall i' j' xi' yj' Hpos. apply Hall.
        destruct Hpos as [?|[-> ?]]; [left; lia|left; lia].
  - exists res. split; [exact Hrun|]. rewrite range_length in Hfin. tauto.
Qed.

Lemma positive_mass_list (l : list (ext Q)) :
  Forall positive_mass l → ∃ qs, l = Fin <$> qs ∧ Forall (λ q, 0 < q)%Q qs.
Proof.
  induction 1 as [|v l (q & -> & Hq) _ (qs & -> & Hqs)].
  - by exists [].
  - exists (q :: qs). split; [done|]. by constructor.
Qed.

Lemma positive_total (px py : list (ext Q)) :
  Forall positive_mass px → Forall positive_mass py → px ≠ [] → py ≠ [] →
  positive_mass (np_sum (joint_raw px py)).
Proof.
  intros Hx Hy Hnx Hny.
  apply positive_mass_list in Hx as (xs & -> & Hxs).
  apply positive_mass_list in Hy as (ys & -> & Hys).
  unfold np_sum. rewrite joint_raw_Fin, foldl_np_add_Fin.
  eexists. split; [done|]. rewrite foldl_Qplus, Qplus_0_l.
  assert (Forall (λ q, 0 <= q)%Q xs) as Hxs0
    by (eapply Forall_impl; [exact Hxs|]; intros q Hq; cbn beta in *; lra).
  assert (Forall (λ q, 0 <= q)%Q ys) as Hys0
    by (eapply Forall_impl; [exact Hys|]; intros q Hq; cbn beta in *; lra).
  apply Qsum_pos; [by apply pair_sums_nonneg|].
  apply pair_sums_pos; try done; try (by destruct xs); try (by destruct ys).
  left. destruct xs as [|a xs]; [done|]. apply Forall_cons in Hxs as [Ha _].
  by apply Exists_cons_hd.
Qed.

(** X8: when both marginal PMFs are computed, [mutual_information]
    returns, and the score is a finite number exactly when every bin
    of both marginals has positive mass; one empty bin makes the
    score inf or nan. *)
Theorem mutual_information_finite_iff (image1 image2 : ndarray Q)
    (id0 bin_size : Z) px py :
  marginal_pmf image1 bin_size id0 = Ok px →
  marginal_pmf image2 bin_size (id0 + 100)%Z = Ok py →
  ∃ mi, mutual_information image1 image2 id0 bin_size = Ok mi ∧
    (is_finite mi = true ↔ Forall positive_mass px ∧ Forall positive_mass py).
Proof.
  intros Hpx Hpy. unfold mutual_information. rewrite Hpx, Hpy.
  cbn [mbind result_bind].
  destruct (joint_pmf_cells px py) as (pxy & -> & _ & _ & _ & Hcells).
  cbn [mbind result_bind].
  pose proof (marginal_pmf_entries _ _ _ _ Hpx) as Hex.
  pose proof (marginal_pmf_entries _ _ _ _ Hpy) as Hey.
  pose proof (marginal_pmf_same_length _ _ _ _ _ _ _ Hpx Hpy) as Hlen.
  destruct (mi_loops_finite px py pxy (np_sum (joint_raw px py)) Hex Hey
              (pmf_entry_sum _ _ Hex Hey) Hcells) as (mi & Hrun & Hfin).
  exists mi. split; [exact Hrun|]. rewrite Hfin. split.
  - intros Hall. split; apply Forall_lookup_2; intros k v Hk;
      pose proof (lookup_lt_Some _ _ _ Hk).
    + destruct (lookup_lt_is_Some_2 py 0) as [yj Hyj]; [lia|].
      apply (Hall k 0 v yj); [left; lia|done..].
    + destruct (lookup_lt_is_Some_2 px 0) as [xi Hxi]; [lia|].
      apply (Hall 0 k xi v); [left; lia|done..].
  - intros [Hx Hy] i' j' xi yj _ Hxi Hyj.
    split; [exact (Forall_lookup_1 _ _ _ _ Hx Hxi)|].
    split; [exact (Forall_lookup_1 _ _ _ _ Hy Hyj)|].
    apply positive_total; try done; intros ->; done.
Qed.

Lemma mutual_information_finite_iff_witness :
  marginal_pmf bright_1x1 256 0 = Ok [Fin 1%Q] ∧
  marginal_pmf dark_1x1 256 (0 + 100)%Z = Ok [Fin 1%Q] ∧
  ∃ mi, mutual_information bright_1x1 dark_1x1 0 256 = Ok mi ∧
    (is_finite mi = true ↔
     Forall positive_mass [Fin 1%Q] ∧ Forall positive_mass [Fin 1%Q]).
Proof.
  assert (marginal_pmf bright_1x1 256 0 = Ok [Fin 1%Q]) as H1
    by (vm_compute; reflexivity).
  assert (marginal_pmf dark_1x1 256 (0 + 100)%Z = Ok [Fin 1%Q]) as H2
    by (vm_compute; reflexivity).
  exact (conj H1 (conj H2
           (mutual_information_finite_iff bright_1x1 dark_1x1 0 256 _ _ H1 H2))).
Defined.

(** ** Images narrower than the crop *)

Lemma extract_green_eq (image : ndarray rgb) : extract_green image = amap chan1 image.
Proof.
  unfold extract_green, np_copy, amap. simpl. f_equal.
  rewrite <-!list_fmap_compose. apply list_fmap_ext. intros _ row _. simpl.
  rewrite <-!list_fmap_compose. by apply list_fmap_ext.
Qed.

Lemma crop_step_Raise {A} (k : nat) (a : ndarray A) :
  wf a → 2 * k ≤ ncols a → ncols a < 2 * k + 2 →
  (green ← np_delete (crop k a) 0; np_delete green (-1)) = Raise IndexError.
Proof.
  intros Hwf Hlo Hhi.
  destruct (decide (ncols a = 2 * k)) as [Heq|Hne].
  - replace (np_delete (crop k a) 0) with (@Raise (ndarray A) IndexError); [done|].
    unfold np_delete. rewrite index_out; [done|]. cbn [crop ncols]. lia.
  - rewrite np_delete_first by (cbn [crop ncols]; lia).
    cbn [mbind result_bind]. unfold np_delete. rewrite index_out; [done|].
    cbn [crop ncols]. lia.
Qed.

Lemma prepare_image_narrow (image : ndarray rgb) :
  wf image → ncols image < 40 → prepare_image image = Raise IndexError.
Proof.
  intros Hwf Hlt. unfold prepare_image. rewrite extract_green_eq.
  set (m := ncols image `div` 2).
  assert (2 * m ≤ ncols image < 2 * m + 2) as [Hlo Hhi].
  { pose proof (Nat.div_mod_eq (ncols image) 2).
    pose proof (Nat.mod_upper_bound (ncols image) 2). fold m in H. lia. }
  change 20%Z with (Z.of_nat 20). rewrite (range_split m) by lia.
  erewrite for_each_Raise_at; [done| |].
  - apply crop_loop; [by apply amap_wf|]. cbn [amap ncols]. exact Hlo.
  - apply crop_step_Raise; [by apply amap_wf|exact Hlo|exact Hhi].
Qed.

(** X9: on a rectangular image of fewer than 40 columns the twentyfold
    deletion of the first and the last column in [prepare_image] runs
    out of columns: [prepare_image], and with it [registration],
    raises IndexError. *)
Theorem registration_needs_40_columns (image : ndarray rgb) :
  wf image → ncols image < 40 →
  prepare_image image = Raise IndexError ∧ registration image = Raise IndexError.
Proof.
  intros Hwf Hlt. pose proof (prepare_image_narrow image Hwf Hlt) as Hprep.
  split; [done|]. unfold registration. by rewrite Hprep.
Qed.

Lemma registration_needs_40_columns_witness :
  wf black_1x1 ∧ ncols black_1x1 < 40 ∧
  prepare_image black_1x1 = Raise IndexError ∧
  registration black_1x1 = Raise IndexError.
Proof.
  assert (wf black_1x1) as H1 by (repeat constructor).
  assert (ncols black_1x1 < 40) as H2 by (cbn; lia).
  exact (conj H1 (conj H2 (registration_needs_40_columns black_1x1 H1 H2))).
Defined.

(** ** What the window is copied into *)

Lemma scanned_eq {A} (ref ref' temp : ndarray A) shift res res' :
  nrows ref = nrows ref' → ncols ref = ncols ref' →
  scanned ref temp shift (nrows ref) 0 res →
  scanned ref' temp shift (nrows ref') 0 res' →
  res = res'.
Proof.
  intros Hr Hc (Hwf & Hnr & Hnc & Hcells) (Hwf' & Hnr' & Hnc' & Hcells').
  apply ndarray_eq; [done|done|congruence|congruence|].
  intros i j Hi Hj.
  destruct (Hcells i j) as (v & -> & Hv); [lia..|].
  destruct (Hcells' i j) as (v' & -> & Hv'); [lia..|]. congruence.
Qed.

(** X10: [overlap] uses the reference for its shape only.  Two
    rectangular references of the same shape (and element type) give
    the same outcome,
    the same array or the same exception: every cell of the copy is
    overwritten from [temp]. *)
Theorem overlap_ignores_reference_pixels {A} (ref ref' temp : ndarray A) (shift : Z) :
  wf ref → wf ref' → wf temp →
  np_shape ref = np_shape ref' →
  overlap ref temp shift = overlap ref' temp shift.
Proof.
  intros Hwf Hwf' Hwt Hshape. unfold np_shape in Hshape.
  injection Hshape as Hr Hc. apply Nat2Z.inj in Hr, Hc.
  assert (∀ r r' : ndarray A, wf r → wf r' → nrows r = nrows r' → ncols r = ncols r' →
            ∀ res, overlap r temp shift = Ok res → overlap r' temp shift = Ok res) as Hok.
  { intros r r' Hw Hw' Hnr Hnc res Hrun.
    destruct (overlap_Ok r temp shift) as (res1 & Hrun1 & Hscan1); [done|done| |].
    { intros Hpr Hpc. by apply (overlap_Ok_inv r temp shift res). }
    destruct (overlap_Ok r' temp shift) as (res2 & Hrun2 & Hscan2); [done|done| |].
    { intros Hpr Hpc.
      destruct (overlap_Ok_inv r temp shift res) as [H1 H2]; [done|done|lia|lia|].
      unfold columns_valid in *. split; lia. }
    rewrite Hrun2. f_equal. rewrite Hrun in Hrun1. injection Hrun1 as ->.
    symmetry. by apply (scanned_eq r r' temp shift). }
  destruct (overlap ref temp shift) as [res|e] eqn:Hrun.
  - symmetry. by apply (Hok ref ref').
  - destruct (overlap ref' temp shift) as [res'|e'] eqn:Hrun'.
    + apply (Hok ref' ref) in Hrun'; [congruence|done..].
    + apply overlap_Raise in Hrun, Hrun'. congruence.
Qed.

Lemma overlap_ignores_reference_pixels_witness :
  wf ref_2x3 ∧ wf ref_2x3_sevens ∧ wf temp_2x43 ∧
  np_shape ref_2x3 = np_shape ref_2x3_sevens ∧
  overlap ref_2x3 temp_2x43 7 = overlap ref_2x3_sevens temp_2x43 7.
Proof.
  assert (wf ref_2x3) as H1 by (repeat constructor).
  assert (wf ref_2x3_sevens) as H2 by (repeat constructor).
  assert (wf temp_2x43) as H3 by (repeat constructor).
  assert (np_shape ref_2x3 = np_shape ref_2x3_sevens) as H4 by reflexivity.
  exact (conj H1 (conj H2 (conj H3 (conj H4
           (overlap_ignores_reference_pixels ref_2x3 ref_2x3_sevens temp_2x43 7
              H1 H2 H3 H4))))).
Defined.

(** ** The regions the scan compares *)

(** X11: the two arrays [registration] compares at shift [k], for a
    rectangular image of at least 40 columns.  The reference holds the
    green channel of the columns [20 + j], the region returned by
    [overlap] the red channel of the columns [40 - k + j]; both have the
    rows of the image and 40 columns less.  At [k = 20] the two show
    the same pixels. *)
Theorem registration_compares_channels (image : ndarray rgb) reference template (k : nat) :
  wf image → 40 ≤ ncols image → k ≤ 40 →
  prepare_image image = Ok (reference, template) →
  ∃ region, overlap reference template (Z.of_nat k) = Ok region ∧
    wf region ∧ nrows region = nrows image ∧ ncols region = ncols image - 40 ∧
    ∀ i j, i < nrows image → j < ncols image - 40 →
      cell reference i j = chan1 <$> cell image i (20 + j) ∧
      cell region i j = chan0 <$> cell image i (40 - k + j).
Proof.
  intros Hwf H40 Hk Hprep. rewrite prepare_image_eq in Hprep by done.
  injection Hprep as <- <-.
  set (reference := crop 20 (amap chan1 image)).
  set (template := amap chan0 image).
  assert (nrows reference = nrows image) as Hnr
    by (unfold nrows; cbn; by rewrite !length_fmap).
  assert (nrows template = nrows image) as Hnt
    by (unfold nrows; cbn; by rewrite !length_fmap).
  assert (ncols reference = ncols image - 40) as Hnc by (cbn; lia).
  assert (ncols template = ncols image) as Hntc by done.
  destruct (overlap_Ok reference template (Z.of_nat k))
    as (region & Hrun & Hw & Hr & Hc & Hcells).
  { by apply crop_wf, amap_wf. }
  { by apply amap_wf. }
  { intros _ _. split; [lia|]. unfold columns_valid. lia. }
  exists region. split; [done|]. split; [done|].
  split; [congruence|]. split; [congruence|].
  intros i j Hi Hj. split.
  - unfold reference. rewrite crop_cell by (cbn; lia). by rewrite amap_cell.
  - destruct (Hcells i j) as (v & -> & Hv); [lia..|].
    rewrite <-Hv, Hntc. unfold template. rewrite amap_cell.
    unfold norm. rewrite decide_True by lia. do 2 f_equal. lia.
Qed.

Lemma registration_compares_channels_witness :
  wf black_1x41 ∧ 40 ≤ ncols black_1x41 ∧ 20 ≤ 40 ∧
  prepare_image black_1x41
  = Ok (crop 20 (amap chan1 black_1x41), amap chan0 black_1x41) ∧
  ∃ region,
    overlap (crop 20 (amap chan1 black_1x41)) (amap chan0 black_1x41) (Z.of_nat 20)
    = Ok region ∧
    wf region ∧ nrows region = nrows black_1x41 ∧
    ncols region = ncols black_1x41 - 40 ∧
    ∀ i j, i < nrows black_1x41 → j < ncols black_1x41 - 40 →
      cell (crop 20 (amap chan1 black_1x41)) i j
      = chan1 <$> cell black_1x41 i (20 + j) ∧
      cell region i j = chan0 <$> cell black_1x41 i (40 - 20 + j).
Proof.
  assert (wf black_1x41) as H1 by (repeat constructor).
  assert (40 ≤ ncols black_1x41) as H2 by (cbn; lia).
  assert (20 ≤ 40) as H3 by lia.
  assert (prepare_image black_1x41
          = Ok (crop 20 (amap chan1 black_1x41), amap chan0 black_1x41)) as H4
    by (vm_compute; reflexivity).
  exact (conj H1 (conj H2 (conj H3 (conj H4
           (registration_compares_channels black_1x41 _ _ 20 H1 H2 H3 H4))))).
Defined.

(** ** An empty reference *)



(** ** The normalising constant of the additive combination *)

Lemma Qsum_app_eq (l1 l2 : list Q) : (Qsum (l1 ++ l2) == Qsum l1 + Qsum l2)%Q.
Proof.
  unfold Qsum. induction l1 as [|a l1 IH]; cbn [app foldr]; [ring|].
  rewrite IH. ring.
Qed.

Lemma Qsum_shift (a : Q) (ys : list Q) :
  (Qsum (Qplus a <$> ys) == inject_Z (len ys) * a + Qsum ys)%Q.
Proof.
  unfold len, Qsum. induction ys as [|y ys IH].
  - cbn. ring.
  - cbn [fmap list_fmap foldr length]. cbn [fmap] in IH.
    rewrite IH, Nat2Z.inj_succ. unfold Z.succ. rewrite inject_Z_plus. ring.
Qed.

Lemma Qsum_pair_sums (xs ys : list Q) :
  (Qsum (pair_sums xs ys)
   == inject_Z (len ys) * Qsum xs + inject_Z (len xs) * Qsum ys)%Q.
Proof.
  unfold len. induction xs as [|a xs IH].
  - cbn. ring.
  - unfold pair_sums in *. cbn [fmap list_fmap concat length]. cbn [fmap] in IH.
    rewrite Qsum_app_eq, IH.
    pose proof (Qsum_shift a ys) as Hs. unfold len in Hs. rewrite Hs.
    rewrite Nat2Z.inj_succ. unfold Z.succ. rewrite inject_Z_plus.
    unfold Qsum. cbn [foldr]. ring.
Qed.

(** X13: for two marginals that each sum to 1, the normalising
    constant of [joint_pmf] is the number of entries of both together:
    cell [(i, j)] is [(x_pmf[i] + y_pmf[j]) / (len(x_pmf) + len(y_pmf))]. *)
Theorem joint_pmf_of_distributions (xs ys : list Q) :
  (Qsum xs == 1)%Q → (Qsum ys == 1)%Q →
  ∃ pxy, joint_pmf (Fin <$> xs) (Fin <$> ys) = Ok pxy ∧
    ∀ i j xi yj, xs !! i = Some xi → ys !! j = Some yj →
      ∃ c, cell pxy i j = Some (Fin c) ∧
           (c == (xi + yj) / inject_Z (len xs + len ys))%Q.
Proof.
  intros Hx Hy.
  destruct (joint_pmf_cells (Fin <$> xs) (Fin <$> ys))
    as (pxy & Hrun & _ & _ & _ & Hcells).
  exists pxy. split; [done|]. intros i j xi yj Hi Hj.
  set (total := foldl Qplus 0%Q (pair_sums xs ys)).
  assert (np_sum (joint_raw (Fin <$> xs) (Fin <$> ys)) = Fin total) as Htotal.
  { unfold np_sum. rewrite joint_raw_Fin. apply foldl_np_add_Fin. }
  assert (total == inject_Z (len xs + len ys))%Q as Hsum.
  { unfold total. rewrite foldl_Qplus, Qsum_pair_sums, Hx, Hy, inject_Z_plus. ring. }
  assert (0 < total)%Q as Hpos.
  { rewrite Hsum. apply inject_Z_pos. unfold len.
    destruct xs; [cbn in Hx; lra|]. cbn [length]. lia. }
  exists ((xi + yj) / total)%Q. split.
  - rewrite (Hcells i j (Fin xi) (Fin yj)) by (by rewrite list_lookup_fmap, ?Hi, ?Hj).
    rewrite Htotal. cbn [np_add ext_add np_div]. by rewrite Qeq_bool_pos.
  - by rewrite Hsum.
Qed.

Lemma joint_pmf_of_distributions_witness :
  (Qsum [1 # 2; 1 # 2] == 1)%Q ∧ (Qsum [1] == 1)%Q ∧
  ∃ pxy, joint_pmf (Fin <$> [1 # 2; 1 # 2]%Q) (Fin <$> [1%Q]) = Ok pxy ∧
    ∀ i j xi yj, [1 # 2; 1 # 2]%Q !! i = Some xi → [1%Q] !! j = Some yj →
      ∃ c, cell pxy i j = Some (Fin c) ∧
           (c == (xi + yj) / inject_Z (len [1 # 2; 1 # 2]%Q + len [1%Q]))%Q.
Proof.
  assert (Qsum [1 # 2; 1 # 2] == 1)%Q as H1 by (vm_compute; reflexivity).
  assert (Qsum [1] == 1)%Q as H2 by (vm_compute; reflexivity).
  exact (conj H1 (conj H2 (joint_pmf_of_distributions [1 # 2; 1 # 2]%Q [1%Q] H1 H2))).
Defined.
